(** * Fawkes crash agents: a shallow embedding and its properties

    The two agents of [src/agents] are embedded here:
    - [LinuxCrashAgent.cpp] (the poller, "variant B"), in [Module Linux];
    - [FawkesCrashAgent-Windows.cpp] (the in-process trap, "variant A"),
      in [Module Windows].

    Machine integers are [Z] with their wrap-around written out, C++
    strings are [string], the registry and the files written by the agents
    are [gmap]s, and every function that touches the operating system takes
    what the system answers as an argument and returns the new state.

    The [std::filesystem] calls of the source are the throwing overloads.
    The throw of [fs::create_directories] in the Windows filter is part of
    the embedding; for the other calls the embedding covers the executions
    in which they return normally. *)

From Stdlib Require Import ZArith NArith Ascii String List Permutation Lia.
From stdpp Require Import base option list gmap strings.

Local Open Scope Z_scope.

(* ================================================================== *)
(** * Text *)
(* ================================================================== *)

Module Text.

(** Characters that cannot be written inside a string literal here. *)
Definition dquote : string := String "034"%char EmptyString.
Definition newline : string := String "010"%char EmptyString.
Definition cr : string := String "013"%char EmptyString.
Definition backslash : string := String "092"%char EmptyString.

(** [quoted s] is [s] between two double quotes. *)
Definition quoted (s : string) : string := dquote +:+ s +:+ dquote.

(** [s.rfind(p, 0) == 0]: the only position searched is 0, so this is
    "s starts with p". *)
Fixpoint starts_with (p s : string) : bool :=
  match p, s with
  | EmptyString, _ => true
  | String a p', String b s' => if Ascii.eqb a b then starts_with p' s' else false
  | String _ _, EmptyString => false
  end.

(** [s.substr(n)] for [n <= s.size()]: the suffix from position [n]. *)
Fixpoint substr_from (n : nat) (s : string) : string :=
  match n, s with
  | O, _ => s
  | S n', String _ s' => substr_from n' s'
  | S _, EmptyString => EmptyString
  end.

(** [contains p s]: [p] occurs in [s] as a contiguous run. *)
Fixpoint contains (p s : string) : bool :=
  starts_with p s ||
  match s with
  | EmptyString => false
  | String _ s' => contains p s'
  end.

(** The digit characters of [std::to_string] and of a stream in
    [std::hex] mode (lowercase, since [std::uppercase] is never set). *)
Definition digit_char (d : Z) : ascii :=
  if d <? 10 then ascii_of_N (Z.to_N (48 + d)) else ascii_of_N (Z.to_N (87 + d)).

(** Most significant digit first, no padding, ["0"] for zero. *)
Fixpoint render_digits (fuel : nat) (base n : Z) (acc : string) : string :=
  match fuel with
  | O => acc
  | S fuel' =>
      let acc' := String (digit_char (n mod base)) acc in
      if n / base =? 0 then acc' else render_digits fuel' base (n / base) acc'
  end.

Definition render_unsigned (base n : Z) : string :=
  render_digits (S (Z.to_nat (Z.log2 n))) base n EmptyString.

(** [std::to_string] on an unsigned integer. *)
Definition to_string (n : Z) : string := render_unsigned 10 n.

(** [stream << std::hex << n] on an unsigned integer. *)
Definition to_hex (n : Z) : string := render_unsigned 16 n.

(** Reading the digits back: the number a run of digit characters
    denotes in a base, most significant digit first. *)
Definition digit_of_char (c : ascii) : Z :=
  let n := Z.of_N (N_of_ascii c) in
  if n <? 58 then n - 48 else n - 87.

Fixpoint value_from (base : Z) (s : string) (acc : Z) : Z :=
  match s with
  | EmptyString => acc
  | String c s' => value_from base s' (acc * base + digit_of_char c)
  end.

(** The characters a rendered number is made of. *)
Definition is_dec_digit (c : ascii) : bool :=
  let n := Z.of_N (N_of_ascii c) in
  (48 <=? n) && (n <=? 57).

Definition is_hex_lower (c : ascii) : bool :=
  let n := Z.of_N (N_of_ascii c) in
  is_dec_digit c || ((97 <=? n) && (n <=? 102)).

Fixpoint all_chars (ok : ascii -> bool) (s : string) : bool :=
  match s with
  | EmptyString => true
  | String c s' => ok c && all_chars ok s'
  end.

(** The first character is not the digit zero. *)
Definition no_leading_zero (s : string) : bool :=
  match s with
  | String c _ => negb (Ascii.eqb c "0"%char)
  | EmptyString => true
  end.

End Text.

Import Text.

(* ================================================================== *)
(** * Machine integers *)
(* ================================================================== *)

Module CInt.

Definition INT_MIN : Z := - 2 ^ 31.
Definition INT_MAX : Z := 2 ^ 31 - 1.

(** Conversion to [unsigned long] on an LP64 target (Linux, 64 bits). *)
Definition to_ulong (z : Z) : Z := z mod 2 ^ 64.

(** ** [std::stoi]

    [std::stoi(s)] calls [strtol(s, &end, 10)]: leading white space is
    skipped, one sign is accepted, then the longest run of decimal digits
    is read; what follows the digits is ignored. It throws
    [std::invalid_argument] when no digit was read and [std::out_of_range]
    when the value does not fit an [int]. [None] stands for a throw. *)

Definition is_space (c : ascii) : bool :=
  let n := Z.of_N (N_of_ascii c) in
  (n =? 32) || ((9 <=? n) && (n <=? 13)).

Fixpoint skip_space (s : string) : string :=
  match s with
  | String c s' => if is_space c then skip_space s' else s
  | EmptyString => s
  end.

Definition digit_val (c : ascii) : option Z :=
  let n := Z.of_N (N_of_ascii c) in
  if (48 <=? n) && (n <=? 57) then Some (n - 48) else None.

(** The value of the longest digit prefix, [None] when it is empty. *)
Fixpoint read_digits (s : string) (acc : option Z) : option Z :=
  match s with
  | String c s' =>
      match digit_val c with
      | Some d => read_digits s' (Some (10 * default 0 acc + d))
      | None => acc
      end
  | EmptyString => acc
  end.

Definition read_sign (s : string) : bool * string :=
  match s with
  | String "-"%char s' => (true, s')
  | String "+"%char s' => (false, s')
  | _ => (false, s)
  end.

Definition stoi (s : string) : option Z :=
  let '(neg, body) := read_sign (skip_space s) in
  match read_digits body None with
  | None => None
  | Some v =>
      let v' := if neg then - v else v in
      if (INT_MIN <=? v') && (v' <=? INT_MAX) then Some v' else None
  end.

(** What may follow the digits of a number for [strtol] to stop there:
    nothing, or a character that is not a digit. *)
Definition ends_number (rest : string) : bool :=
  match rest with
  | EmptyString => true
  | String c _ => negb (is_dec_digit c)
  end.

End CInt.

Import CInt.


(* ================================================================== *)
(** * The Linux agent (variant B, the poller) *)
(* ================================================================== *)

Module Linux.

Definition CORE_PATTERN_FILE : string := "/proc/sys/kernel/core_pattern".
Definition CRASH_DIR : string := "/mnt/virtfs/fawkes/crashes".
Definition CORE_PATTERN_VALUE : string := "/mnt/virtfs/fawkes/crashes/core.%p".

(** [struct CrashInfo]; [pid] and [exceptionCode] are [unsigned long]. *)
Record CrashInfo := mkCrashInfo {
  haveCrash : bool;
  exePath : string;
  pid : Z;
  exceptionCode : Z;
  crashFile : string
}.

(** The shared globals [g_crashHappened] and [g_lastCrash]. *)
Record Store := mkStore {
  g_crashHappened : bool;
  g_lastCrash : CrashInfo
}.

(** Static initialisation: [g_crashHappened(false)] and a zero-initialised
    [g_lastCrash] whose strings are default-constructed. *)
Definition store_init : Store :=
  mkStore false (mkCrashInfo false EmptyString 0 0 EmptyString).

(** ** [ConfigureCorePattern]

    The part of the system that the configurator writes: the text last
    written to [CORE_PATTERN_FILE] and the [RLIMIT_CORE] pair of the
    process. [RLIM_INFINITY] is the largest [rlim_t]. *)

Definition RLIM_INFINITY : Z := 2 ^ 64 - 1.

Record System := mkSystem {
  core_pattern : string;
  rlim_cur : Z;
  rlim_max : Z
}.

(** What the process is allowed to do: open [CORE_PATTERN_FILE] for
    writing, and raise a hard limit ([CAP_SYS_RESOURCE]). *)
Record Privileges := mkPrivileges {
  may_write_core_pattern : bool;
  cap_sys_resource : bool
}.

(** [setrlimit(2)]: [EINVAL] when the soft limit exceeds the hard one,
    [EPERM] when an unprivileged process raises its hard limit. [None]
    stands for a return value other than 0. *)
Definition setrlimit (pr : Privileges) (cur max : Z) (sys : System) : option System :=
  if max <? cur then None
  else if cap_sys_resource pr || (max <=? rlim_max sys)
  then Some (mkSystem (core_pattern sys) cur max)
  else None.

Definition ConfigureCorePattern (pr : Privileges) (sys : System) : System * bool :=
  if negb (may_write_core_pattern pr) then (sys, false)
  else
    let sys1 := mkSystem (CORE_PATTERN_VALUE +:+ newline) (rlim_cur sys) (rlim_max sys) in
    match setrlimit pr RLIM_INFINITY RLIM_INFINITY sys1 with
    | None => (sys1, false)
    | Some sys2 => (sys2, true)
    end.

(** ** [parsePID] *)

Definition parsePID (filename : string) : Z :=
  let prefix := "core." in
  if starts_with prefix filename then
    let pidStr := substr_from (String.length prefix) filename in
    match stoi pidStr with
    | Some v => v
    | None => -1
    end
  else -1.

(** ** [CrashWatcherLoop] *)

(** One entry of [fs::directory_iterator(dir)]: its file name, whether
    [is_regular_file()] holds, and [fs::last_write_time] of it. *)
Record dirent := mkDirent {
  d_name : string;
  d_regular : bool;
  d_mtime : Z
}.

(** [entry.path()] is [dir / name]; the [fs::path] keeps both parts, so
    that [filename()] and [string()] are projections of it. The
    default-constructed path has two empty parts. *)
Record path := mkPath {
  p_dir : string;
  p_name : string
}.

Definition path_default : path := mkPath EmptyString EmptyString.

Definition path_empty (p : path) : bool :=
  bool_decide (p_dir p = EmptyString) && bool_decide (p_name p = EmptyString).

Definition path_string (p : path) : string :=
  if path_empty p then EmptyString else p_dir p +:+ "/" +:+ p_name p.

Definition filename (p : path) : string := p_name p.

Definition entry_path (e : dirent) : path := mkPath CRASH_DIR (d_name e).

(** [fs::file_time_type::min()]: the clock counts nanoseconds in a signed
    64-bit integer (libstdc++). *)
Definition file_time_min : Z := - 2 ^ 63.

(** The body of the [for] loop over the directory, on the pair
    ([newestTime], [newestPath]). *)
Definition scan_step (acc : Z * path) (entry : dirent) : Z * path :=
  let '(newestTime, newestPath) := acc in
  if negb (d_regular entry) then acc
  else
    let fname := filename (entry_path entry) in
    if starts_with "core." fname then
      let ftime := d_mtime entry in
      if newestTime <? ftime then (ftime, entry_path entry) else acc
    else acc.

Definition scan (entries : list dirent) : Z * path :=
  fold_left scan_step entries (file_time_min, path_default).

(** The state of the watcher thread: its local [lastCore] and the shared
    store. *)
Record Watcher := mkWatcher {
  lastCore : string;
  store : Store
}.

Definition watcher_init : Watcher := mkWatcher EmptyString store_init.

(** The assignments made under [g_crashMutex]. *)
Definition install (pidVal : Z) (newestFull : string) (_ : Store) : Store :=
  mkStore true (mkCrashInfo true "unknown" pidVal 0xC0000005 newestFull).

(** The line written to [std::cerr] just before the store is updated. *)
Definition detected_line (newestFull : string) (pidVal : Z) : string :=
  "[AGENT] Detected new core dump: " +:+ newestFull +:+ ", pid="
    +:+ to_string pidVal +:+ newline.

(** One iteration of the [while (true)] loop, after the sleep. [listing]
    is [None] when [CRASH_DIR] does not exist or is not a directory, and
    the entries in iteration order otherwise. The second component is
    what the iteration writes to [std::cerr]. *)
Definition watch_cycle_log (listing : option (list dirent)) (w : Watcher)
    : Watcher * option string :=
  match listing with
  | None => (w, None)
  | Some entries =>
      let '(_, newestPath) := scan entries in
      if negb (path_empty newestPath) then
        let newestFull := path_string newestPath in
        if negb (String.eqb newestFull (lastCore w)) then
          let pidVal := to_ulong (parsePID (filename newestPath)) in
          (mkWatcher newestFull (install pidVal newestFull (store w)),
           Some (detected_line newestFull pidVal))
        else (w, None)
      else (w, None)
  end.

Definition watch_cycle (listing : option (list dirent)) (w : Watcher) : Watcher :=
  fst (watch_cycle_log listing w).

(** Whether the iteration updates the store: it does exactly when it
    writes its line. *)
Definition updates_store (listing : option (list dirent)) (w : Watcher) : bool :=
  bool_decide (is_Some (snd (watch_cycle_log listing w))).

(** The number of iterations of a run that install a record whose
    [crashFile] is [file]. *)
Fixpoint updates_for (file : string) (listings : list (option (list dirent)))
    (w : Watcher) : nat :=
  match listings with
  | [] => O
  | l :: rest =>
      let w' := watch_cycle l w in
      (if updates_store l w && String.eqb (crashFile (g_lastCrash (store w'))) file
       then 1 else 0)%nat + updates_for file rest w'
  end.

(** What happens to the agent: the watcher wakes up and finds the
    directory in some state, or a client connects. *)
Inductive event :=
| Poll (listing : option (list dirent))
| Query.

Definition step (w : Watcher) (ev : event) : Watcher :=
  match ev with
  | Poll listing => watch_cycle listing w
  | Query => w
  end.

Definition run (evs : list event) (w : Watcher) : Watcher := fold_left step evs w.

(** An entry that the scan does not skip. *)
Definition eligible (e : dirent) : bool :=
  d_regular e && starts_with "core." (d_name e).

(** The directory is found with [file] as the path of its newest core
    file. *)
Definition newest_is (file : string) (listing : option (list dirent)) : Prop :=
  exists entries,
    listing = Some entries /\ path_string (snd (scan entries)) = file.

(** What the pair ([newestTime], [newestPath]) is after the entries
    [seen]: no eligible entry seen is newer than [newestTime]; the path
    is empty as long as the time is the initial one; otherwise it is the
    path of an eligible entry with that time, and the eligible entries
    seen before that one are strictly older. *)
Definition scan_inv (seen : list dirent) (acc : Z * path) : Prop :=
  let '(newestTime, newestPath) := acc in
  (forall x, In x seen -> eligible x = true -> d_mtime x <= newestTime)
  /\ (path_empty newestPath = true -> newestTime = file_time_min)
  /\ (path_empty newestPath = false ->
      exists before e after,
        seen = before ++ e :: after
        /\ newestPath = entry_path e
        /\ newestTime = d_mtime e
        /\ eligible e = true
        /\ forall x, In x before -> eligible x = true -> d_mtime x < d_mtime e).

(** ** The response built by [StartTCPServer]

    The source writes the exception field as
    [std::to_string(std::hex) + std::to_string(exceptionCode) + std::dec].
    [std::to_string] has no overload that takes a manipulator and
    [std::string] has no [operator+] for one, so the source does not say
    what text these two operands stand for: [hex_text] and [dec_text] are
    whatever they contribute. What the source fixes is that the code
    itself goes through [std::to_string], which writes decimal digits. *)

Section Responder.

Variables hex_text dec_text : string.

Definition crash_false : string := "{ " +:+ quoted "crash" +:+ ": false }".

Definition response (s : Store) : string :=
  let crash := g_crashHappened s in
  if crash && haveCrash (g_lastCrash s) then
    "{ " +:+ quoted "crash" +:+ ": true, " +:+ quoted "pid" +:+ ": "
      +:+ to_string (pid (g_lastCrash s))
      +:+ ", " +:+ quoted "exe" +:+ ": " +:+ dquote +:+ exePath (g_lastCrash s)
      +:+ dquote +:+ ", " +:+ quoted "exception" +:+ ": " +:+ dquote +:+ "0x"
      +:+ hex_text +:+ to_string (exceptionCode (g_lastCrash s)) +:+ dec_text
      +:+ dquote +:+ ", " +:+ quoted "file" +:+ ": " +:+ dquote
      +:+ crashFile (g_lastCrash s) +:+ dquote +:+ " }" +:+ newline
  else crash_false +:+ newline.

(** What is sent to the client. *)
Definition http (s : Store) : string :=
  "HTTP/1.1 200 OK" +:+ cr +:+ newline
    +:+ "Content-Type: application/json" +:+ cr +:+ newline
    +:+ cr +:+ newline +:+ response s.

(** The responses sent during a run, one for each [Query]. *)
Fixpoint answers (evs : list event) (w : Watcher) : list string :=
  match evs with
  | [] => []
  | Query :: rest => response (store w) :: answers rest w
  | ev :: rest => answers rest (step w ev)
  end.

End Responder.

(** The response in the canonical form of the protocol, following the
    words of the specification: the exception code in lowercase
    hexadecimal after [0x], no padding. *)
Definition response_canonical (s : Store) : string :=
  if g_crashHappened s && haveCrash (g_lastCrash s) then
    "{ " +:+ quoted "crash" +:+ ": true, " +:+ quoted "pid" +:+ ": "
      +:+ to_string (pid (g_lastCrash s))
      +:+ ", " +:+ quoted "exe" +:+ ": " +:+ dquote +:+ exePath (g_lastCrash s)
      +:+ dquote +:+ ", " +:+ quoted "exception" +:+ ": " +:+ dquote +:+ "0x"
      +:+ to_hex (exceptionCode (g_lastCrash s))
      +:+ dquote +:+ ", " +:+ quoted "file" +:+ ": " +:+ dquote
      +:+ crashFile (g_lastCrash s) +:+ dquote +:+ " }" +:+ newline
  else crash_false +:+ newline.

(** ** The accept loop of [StartTCPServer]

    What the socket calls answer when the server starts, and, for each
    turn of the loop, what [accept] returns together with the store as it
    is when the turn takes the lock. [received] is what [recv] puts in the
    buffer, [None] when it returns nothing. *)
Record Startup := mkStartup {
  socket_ok : bool;
  bind_ok : bool;
  listen_ok : bool
}.

Inductive accepted :=
| AcceptError
| Client (received : option string).

Section Server.

Variables hex_text dec_text : string.

(** The messages sent, in order. After a failed [accept] the loop goes
    on ([continue]). *)
Fixpoint serve (conns : list (accepted * Store)) : list string :=
  match conns with
  | [] => []
  | (AcceptError, _) :: rest => serve rest
  | (Client _, s) :: rest => http hex_text dec_text s :: serve rest
  end.

Definition StartTCPServer (up : Startup) (conns : list (accepted * Store)) : list string :=
  if negb (socket_ok up) then []
  else if negb (bind_ok up) then []
  else if negb (listen_ok up) then []
  else serve conns.

End Server.

(** What the watcher thread keeps true of its state and of the store. *)
Definition watcher_ok (w : Watcher) : Prop :=
  if g_crashHappened (store w) then
    haveCrash (g_lastCrash (store w)) = true
    /\ exePath (g_lastCrash (store w)) = "unknown"
    /\ exceptionCode (g_lastCrash (store w)) = 0xC0000005
    /\ crashFile (g_lastCrash (store w)) = lastCore w
    /\ (0 <= pid (g_lastCrash (store w)) <= INT_MAX
      \/ 2 ^ 64 + INT_MIN <= pid (g_lastCrash (store w)) < 2 ^ 64)
    /\ starts_with "/mnt/virtfs/fawkes/crashes/core." (lastCore w) = true
  else
    store w = store_init /\ lastCore w = EmptyString.

End Linux.


(* ================================================================== *)
(** * The Windows agent (variant A, the in-process trap) *)
(* ================================================================== *)

Module Windows.

Definition CRASH_SUBDIR : string := "Z:\qemu".
Definition WER_KEY : string :=
  "SOFTWARE\Microsoft\Windows\Windows Error Reporting\LocalDumps".

(** [struct CrashInfo]; [pid] and [exceptionCode] are [DWORD]. *)
Record CrashInfo := mkCrashInfo {
  haveCrash : bool;
  exePath : string;
  pid : Z;
  exceptionCode : Z;
  crashFile : string
}.

Record Store := mkStore {
  g_crashHappened : bool;
  g_lastCrash : CrashInfo
}.

Definition store_init : Store :=
  mkStore false (mkCrashInfo false EmptyString 0 0 EmptyString).

(** ** [ConfigureWER]

    The registry under [HKEY_LOCAL_MACHINE]: each key that exists is
    mapped to its named values. *)

Inductive reg_data :=
| REG_SZ (text : string)
| REG_DWORD (n : Z).

Definition ERROR_SUCCESS : Z := 0.
Definition ERROR_ACCESS_DENIED : Z := 5.

(** What the registry lets the process do: open or create keys under
    [HKEY_LOCAL_MACHINE] with [KEY_SET_VALUE], and set a value of a
    given name. *)
Record Access := mkAccess {
  may_open_key : bool;
  may_set_value : string -> bool
}.

(** [RegCreateKeyExA]: creates the key when it is absent and opens it
    when it exists. The handle is the name of the key. *)
Definition RegCreateKeyExA (ac : Access) (key : string)
    (reg : gmap string (gmap string reg_data))
    : Z * gmap string (gmap string reg_data) :=
  if may_open_key ac then
    match reg !! key with
    | Some _ => (ERROR_SUCCESS, reg)
    | None => (ERROR_SUCCESS, <[key := ∅]> reg)
    end
  else (ERROR_ACCESS_DENIED, reg).

(** [RegSetValueExA]: sets the value, replacing one of the same name. *)
Definition RegSetValueExA (ac : Access) (hKey name : string) (data : reg_data)
    (reg : gmap string (gmap string reg_data))
    : Z * gmap string (gmap string reg_data) :=
  if may_set_value ac name then
    (ERROR_SUCCESS, <[hKey := <[name := data]> (default ∅ (reg !! hKey))]> reg)
  else (ERROR_ACCESS_DENIED, reg).

Definition ConfigureWER (ac : Access) (reg : gmap string (gmap string reg_data))
    : gmap string (gmap string reg_data) * bool :=
  let '(res, reg1) := RegCreateKeyExA ac WER_KEY reg in
  if negb (res =? ERROR_SUCCESS) then (reg1, false)
  else
    let '(res, reg2) := RegSetValueExA ac WER_KEY "DumpFolder" (REG_SZ CRASH_SUBDIR) reg1 in
    if negb (res =? ERROR_SUCCESS) then (reg2, false)
    else
      let dumpType := 2 in
      let '(_, reg3) := RegSetValueExA ac WER_KEY "DumpType" (REG_DWORD dumpType) reg2 in
      (reg3, true).

(** ** [CreateCrashJSON]

    The crash directory and the files the agent writes into it. *)
Record Disk := mkDisk {
  dir_exists : bool;
  files : gmap string string
}.

(** How far the file system lets [CreateCrashJSON] get with the record
    file: [fs::create_directories] fails for the crash directory, and
    throws when it is called; the directory is there or can be made but
    the [std::ofstream] on the record file does not open; the stream
    opens. A stream does not open in a directory that cannot be made, so
    these are the three cases. *)
Inductive fs_answer :=
| CannotCreateDirectory
| CannotOpenFile
| FileOpens.

(** What the system answers during one fault: the exception code of
    [pExp], [GetCurrentProcessId()], the buffer filled by
    [GetModuleFileNameA] ([None] when it returns 0), the text [strftime]
    writes for the current time, and what the file system allows. *)
Record Fault := mkFault {
  ExceptionCode : Z;
  CurrentProcessId : Z;
  ModuleFileName : option string;
  timestamp : string;
  file_system : fs_answer
}.

(** Whether [fs::create_directories(crashDir)] returns, and whether the
    [std::ofstream] on the record file opens. *)
Definition create_directories_ok (f : Fault) : bool :=
  match file_system f with
  | CannotCreateDirectory => false
  | _ => true
  end.

Definition ofstream_opens (f : Fault) : bool :=
  match file_system f with
  | FileOpens => true
  | _ => false
  end.

Definition crash_json (exe : string) (pid code : Z) : string :=
  "{" +:+ newline
    +:+ "  " +:+ quoted "crash" +:+ ": true," +:+ newline
    +:+ "  " +:+ quoted "pid" +:+ ": " +:+ to_string pid +:+ "," +:+ newline
    +:+ "  " +:+ quoted "exe" +:+ ": " +:+ dquote +:+ exe +:+ dquote +:+ "," +:+ newline
    +:+ "  " +:+ quoted "exception" +:+ ": " +:+ dquote +:+ "0x" +:+ to_hex code
    +:+ dquote +:+ newline
    +:+ "}" +:+ newline.

(** [fs::create_directories] is the overload that throws, and nothing
    catches: the second component is [None] when the exception leaves the
    function, and the string returned otherwise. *)
Definition CreateCrashJSON (f : Fault) (exe : string) (pid code : Z) (d : Disk)
    : Disk * option string :=
  let crashDir := CRASH_SUBDIR in
  if negb (dir_exists d) && negb (create_directories_ok f) then (d, None)
  else
    let d1 := if negb (dir_exists d) then mkDisk true (files d) else d in
    let buf := timestamp f in
    let fname := "crash_" +:+ to_string pid +:+ "_" +:+ buf +:+ ".json" in
    let fullPath := crashDir +:+ backslash +:+ fname in
    if negb (ofstream_opens f) then (d1, Some EmptyString)
    else (mkDisk (dir_exists d1) (<[fullPath := crash_json exe pid code]> (files d1)),
          Some fullPath).

(** ** [MyUnhandledExceptionFilter] *)

Definition EXCEPTION_EXECUTE_HANDLER : Z := 1.

(** The process: the shared store, the disk, and [g_originalFilter]
    ([None] for [nullptr]). *)
Record Agent := mkAgent {
  store : Store;
  disk : Disk;
  g_originalFilter : option (Fault -> Z)
}.

Definition agent_init (d : Disk) (orig : option (Fault -> Z)) : Agent :=
  mkAgent store_init d orig.

(** The assignments made under [g_crashMutex]. *)
Definition install (exe : string) (pid code : Z) (jsonFile : string) (_ : Store) : Store :=
  mkStore true (mkCrashInfo true exe pid code jsonFile).

(** The filter leaves the process in a state and returns a [LONG]; the
    second component is [None] when the exception of [CreateCrashJSON]
    leaves the filter instead, before the store is touched. *)
Definition MyUnhandledExceptionFilter (f : Fault) (a : Agent) : Agent * option Z :=
  let code := ExceptionCode f in
  let pid := CurrentProcessId f in
  let exePath := default "unknown" (ModuleFileName f) in
  match CreateCrashJSON f exePath pid code (disk a) with
  | (d, None) => (mkAgent (store a) d (g_originalFilter a), None)
  | (d, Some jsonFile) =>
      let a' := mkAgent (install exePath pid code jsonFile (store a)) d (g_originalFilter a) in
      match g_originalFilter a with
      | Some orig => (a', Some (orig f))
      | None => (a', Some EXCEPTION_EXECUTE_HANDLER)
      end
  end.

(** ** The response built by [StartTCPServer] *)

Definition crash_false : string := "{ " +:+ quoted "crash" +:+ ": false }".

Definition response (s : Store) : string :=
  let crash := g_crashHappened s in
  if crash && haveCrash (g_lastCrash s) then
    let excStr := "0x" +:+ to_hex (exceptionCode (g_lastCrash s)) in
    "{ " +:+ quoted "crash" +:+ ": true, " +:+ quoted "pid" +:+ ": "
      +:+ to_string (pid (g_lastCrash s))
      +:+ ", " +:+ quoted "exe" +:+ ": " +:+ dquote +:+ exePath (g_lastCrash s)
      +:+ dquote +:+ ", " +:+ quoted "exception" +:+ ": " +:+ dquote +:+ excStr
      +:+ dquote +:+ ", " +:+ quoted "file" +:+ ": " +:+ dquote
      +:+ crashFile (g_lastCrash s) +:+ dquote +:+ " }" +:+ newline
  else crash_false +:+ newline.

Definition http (s : Store) : string :=
  "HTTP/1.1 200 OK" +:+ cr +:+ newline
    +:+ "Content-Type: application/json" +:+ cr +:+ newline
    +:+ cr +:+ newline +:+ response s.

(** What happens to the agent: a fault reaches the filter, or a client
    connects. *)
Inductive event :=
| Crash (f : Fault)
| Query.

Definition step (a : Agent) (ev : event) : Agent :=
  match ev with
  | Crash f => fst (MyUnhandledExceptionFilter f a)
  | Query => a
  end.

Definition run (evs : list event) (a : Agent) : Agent := fold_left step evs a.

(** The responses sent during a run, one for each [Query]. *)
Fixpoint answers (evs : list event) (a : Agent) : list string :=
  match evs with
  | [] => []
  | Query :: rest => response (store a) :: answers rest a
  | ev :: rest => answers rest (step a ev)
  end.

(** ** The accept loop of [StartTCPServer]

    As for the Linux agent, with [WSAStartup] first. After a failed
    [accept] the loop ends ([break]). *)
Record Startup := mkStartup {
  winsock_ok : bool;
  socket_ok : bool;
  bind_ok : bool;
  listen_ok : bool
}.

Inductive accepted :=
| AcceptError
| Client (received : option string).

Fixpoint serve (conns : list (accepted * Store)) : list string :=
  match conns with
  | [] => []
  | (AcceptError, _) :: _ => []
  | (Client _, s) :: rest => http s :: serve rest
  end.

Definition StartTCPServer (up : Startup) (conns : list (accepted * Store)) : list string :=
  if negb (winsock_ok up) then []
  else if negb (socket_ok up) then []
  else if negb (bind_ok up) then []
  else if negb (listen_ok up) then []
  else serve conns.

(** The path of the record file of a fault of process [pid] at the time
    written [stamp]. *)
Definition crash_path (pid : Z) (stamp : string) : string :=
  CRASH_SUBDIR +:+ backslash +:+ "crash_" +:+ to_string pid +:+ "_" +:+ stamp +:+ ".json".

(** The store as a fault leaves it when the filter gets to its end. *)
Definition fault_store (f : Fault) : Store :=
  mkStore true
    (mkCrashInfo true (default "unknown" (ModuleFileName f))
       (CurrentProcessId f) (ExceptionCode f)
       (if ofstream_opens f then crash_path (CurrentProcessId f) (timestamp f)
        else EmptyString)).

(** The last fault of a run whose filter got to its end, [acc] when
    there is none; [dir] says whether the crash directory exists. *)
Fixpoint last_installed (dir : bool) (evs : list event) (acc : option Fault) : option Fault :=
  match evs with
  | [] => acc
  | Crash f :: rest =>
      if dir || create_directories_ok f then last_installed true rest (Some f)
      else last_installed dir rest acc
  | Query :: rest => last_installed dir rest acc
  end.

End Windows.



(* ================================================================== *)
(** * The store under concurrent access *)
(* ================================================================== *)

(** The filter (lines 137-145) and the server loop (lines 286-306) of the
    Windows agent, run as two threads over the shared store. Each access to
    a shared variable is one step, the scheduler picks the thread that moves
    next, and [g_crashMutex] is a lock that one thread holds at a time. *)

Module Interleaving.

Import Windows.

Inductive thread := Detector | Responder.

(** Where the filter is: about to take the lock, about to make one of
    its six assignments, about to release the lock, done. *)
Inductive dpc :=
| D_lock | D_flag | D_have | D_exe | D_pid | D_code | D_file | D_unlock | D_done.

(** Where the server is: about to load [g_crashHappened], to take the
    lock, to test [haveCrash], to read one of the four other fields, to
    release the lock, done. *)
Inductive rpc :=
| R_load | R_lock | R_have | R_code | R_pid | R_exe | R_file | R_unlock | R_done.

Record State := mkState {
  shared : Store;
  owner : option thread;
  d_at : dpc;
  r_at : rpc;
  (** the server's local [crash] and the fields it has read *)
  r_crash : bool;
  r_snap : CrashInfo
}.

Definition snap_init : CrashInfo := mkCrashInfo false EmptyString 0 0 EmptyString.

Definition start (s0 : Store) : State :=
  mkState s0 None D_lock R_load false snap_init.

Definition set_flag (b : bool) (s : Store) : Store := mkStore b (g_lastCrash s).
Definition set_have (b : bool) (c : CrashInfo) : CrashInfo :=
  mkCrashInfo b (exePath c) (pid c) (exceptionCode c) (crashFile c).
Definition set_exe (e : string) (c : CrashInfo) : CrashInfo :=
  mkCrashInfo (haveCrash c) e (pid c) (exceptionCode c) (crashFile c).
Definition set_pid (p : Z) (c : CrashInfo) : CrashInfo :=
  mkCrashInfo (haveCrash c) (exePath c) p (exceptionCode c) (crashFile c).
Definition set_code (x : Z) (c : CrashInfo) : CrashInfo :=
  mkCrashInfo (haveCrash c) (exePath c) (pid c) x (crashFile c).
Definition set_file (f : string) (c : CrashInfo) : CrashInfo :=
  mkCrashInfo (haveCrash c) (exePath c) (pid c) (exceptionCode c) f.
Definition on_record (f : CrashInfo -> CrashInfo) (s : Store) : Store :=
  mkStore (g_crashHappened s) (f (g_lastCrash s)).

Definition with_shared (s : Store) (d : dpc) (σ : State) : State :=
  mkState s (owner σ) d (r_at σ) (r_crash σ) (r_snap σ).
Definition with_snap (c : CrashInfo) (r : rpc) (σ : State) : State :=
  mkState (shared σ) (owner σ) (d_at σ) r (r_crash σ) c.

Section Threads.

(** What the filter writes: [exePath], [pid], [code], [jsonFile]. *)
Variables (exe : string) (p code : Z) (file : string).

Definition detector_step (σ : State) : State :=
  match d_at σ with
  | D_lock =>
      match owner σ with
      | None => mkState (shared σ) (Some Detector) D_flag (r_at σ) (r_crash σ) (r_snap σ)
      | Some _ => σ
      end
  | D_flag => with_shared (set_flag true (shared σ)) D_have σ
  | D_have => with_shared (on_record (set_have true) (shared σ)) D_exe σ
  | D_exe => with_shared (on_record (set_exe exe) (shared σ)) D_pid σ
  | D_pid => with_shared (on_record (set_pid p) (shared σ)) D_code σ
  | D_code => with_shared (on_record (set_code code) (shared σ)) D_file σ
  | D_file => with_shared (on_record (set_file file) (shared σ)) D_unlock σ
  | D_unlock => mkState (shared σ) None D_done (r_at σ) (r_crash σ) (r_snap σ)
  | D_done => σ
  end.

Definition responder_step (σ : State) : State :=
  let mem := g_lastCrash (shared σ) in
  match r_at σ with
  | R_load =>
      mkState (shared σ) (owner σ) (d_at σ) R_lock (g_crashHappened (shared σ)) (r_snap σ)
  | R_lock =>
      match owner σ with
      | None => mkState (shared σ) (Some Responder) (d_at σ) R_have (r_crash σ) (r_snap σ)
      | Some _ => σ
      end
  | R_have =>
      (* [crash && g_lastCrash.haveCrash]: the field is read only when
         [crash] is true *)
      if r_crash σ then
        if haveCrash mem then with_snap (set_have true (r_snap σ)) R_code σ
        else with_snap (r_snap σ) R_unlock σ
      else with_snap (r_snap σ) R_unlock σ
  | R_code => with_snap (set_code (exceptionCode mem) (r_snap σ)) R_pid σ
  | R_pid => with_snap (set_pid (pid mem) (r_snap σ)) R_exe σ
  | R_exe => with_snap (set_exe (exePath mem) (r_snap σ)) R_file σ
  | R_file => with_snap (set_file (crashFile mem) (r_snap σ)) R_unlock σ
  | R_unlock => mkState (shared σ) None (d_at σ) R_done (r_crash σ) (r_snap σ)
  | R_done => σ
  end.

Definition step (σ : State) (t : thread) : State :=
  match t with
  | Detector => detector_step σ
  | Responder => responder_step σ
  end.

(** A schedule is the order in which the threads are given a step. *)
Definition run (sched : list thread) (σ : State) : State := fold_left step sched σ.

End Threads.

(** What a reader makes of a store when it is alone: the record, when
    both flags are set. *)
Definition get (s : Store) : option CrashInfo :=
  if g_crashHappened s && haveCrash (g_lastCrash s) then Some (g_lastCrash s) else None.

(** What the server has got once it is done: its local [crash] and the
    fields it has read, looked at the same way. *)
Definition observed (σ : State) : option CrashInfo :=
  get (mkStore (r_crash σ) (r_snap σ)).

(** The text the server answers with. *)
Definition answer (σ : State) : string := response (mkStore (r_crash σ) (r_snap σ)).

(** ** What holds in every state the two threads can reach *)

Section Invariant.

Variables (s0 : Store) (exe : string) (p code : Z) (file : string).

(** The store, by the position of the filter. *)
Definition mem_at (d : dpc) : Store :=
  match d with
  | D_lock | D_flag => s0
  | D_have => set_flag true s0
  | D_exe => on_record (set_have true) (set_flag true s0)
  | D_pid => on_record (set_exe exe) (on_record (set_have true) (set_flag true s0))
  | D_code =>
      on_record (set_pid p)
        (on_record (set_exe exe) (on_record (set_have true) (set_flag true s0)))
  | D_file =>
      on_record (set_code code)
        (on_record (set_pid p)
           (on_record (set_exe exe) (on_record (set_have true) (set_flag true s0))))
  | D_unlock | D_done => install exe p code file s0
  end.

(** The positions at which a thread holds [g_crashMutex]. *)
Definition d_holds (d : dpc) : bool :=
  match d with D_lock | D_done => false | _ => true end.
Definition r_holds (r : rpc) : bool :=
  match r with R_load | R_lock | R_done => false | _ => true end.

Definition owner_at (d : dpc) (r : rpc) : option thread :=
  if d_holds d then Some Detector else if r_holds r then Some Responder else None.

Definition flag_written (d : dpc) : bool :=
  match d with D_lock | D_flag => false | _ => true end.

(** The local [crash] is the flag of the old store, or [true] read
    after the filter has written it. *)
Definition crash_ok (σ : State) : Prop :=
  r_crash σ = g_crashHappened s0 \/ (r_crash σ = true /\ flag_written (d_at σ) = true).

(** The fields of [c] the server has copied when it is at [r]. *)
Definition read_so_far (r : rpc) (c : CrashInfo) : CrashInfo :=
  match r with
  | R_code => set_have true snap_init
  | R_pid => set_code (exceptionCode c) (set_have true snap_init)
  | R_exe => set_pid (pid c) (set_code (exceptionCode c) (set_have true snap_init))
  | R_file =>
      set_exe (exePath c)
        (set_pid (pid c) (set_code (exceptionCode c) (set_have true snap_init)))
  | _ => snap_init
  end.

Definition reader_inv (σ : State) : Prop :=
  match r_at σ with
  | R_load => r_snap σ = snap_init
  | R_lock | R_have => crash_ok σ /\ r_snap σ = snap_init
  | R_code | R_pid | R_exe | R_file =>
      crash_ok σ /\ r_crash σ = true
      /\ haveCrash (g_lastCrash (shared σ)) = true
      /\ r_snap σ = read_so_far (r_at σ) (g_lastCrash (shared σ))
  | R_unlock | R_done =>
      observed σ = get s0 \/ observed σ = get (install exe p code file s0)
  end.

Definition inv (σ : State) : Prop :=
  shared σ = mem_at (d_at σ)
  /\ owner σ = owner_at (d_at σ) (r_at σ)
  /\ d_holds (d_at σ) && r_holds (r_at σ) = false
  /\ reader_inv σ.

End Invariant.

(** ** What holds once the filter is through *)

Section After.

Variables (exe : string) (p code : Z) (file : string).

Definition after_inv (σ : State) : Prop :=
  d_at σ = D_done
  /\ shared σ = mkStore true (mkCrashInfo true exe p code file)
  /\ owner σ = owner_at D_done (r_at σ)
  /\ match r_at σ with
     | R_load => r_snap σ = snap_init
     | R_lock | R_have => r_crash σ = true /\ r_snap σ = snap_init
     | R_code | R_pid | R_exe | R_file =>
         r_crash σ = true
         /\ r_snap σ = read_so_far (r_at σ) (mkCrashInfo true exe p code file)
     | R_unlock | R_done => observed σ = Some (mkCrashInfo true exe p code file)
     end.

End After.

End Interleaving.


(* ================================================================== *)
(** * Properties *)
(* ================================================================== *)

(** ** Text *)

Lemma append_cons (c : ascii) (a b : string) :
  String c a +:+ b = String c (a +:+ b).
Proof. reflexivity. Qed.

Lemma append_length (a b : string) :
  String.length (a +:+ b) = (String.length a + String.length b)%nat.
Proof.
  induction a as [|c a IH]; [reflexivity|].
  rewrite append_cons. cbn [String.length]. now rewrite IH.
Qed.

Lemma append_cancel_l (a x y : string) : a +:+ x = a +:+ y -> x = y.
Proof. apply (inj (String.append a)). Qed.

Lemma append_assoc (a b c : string) : (a +:+ b) +:+ c = a +:+ (b +:+ c).
Proof.
  induction a as [|x a IH]; [reflexivity|].
  rewrite !append_cons. now rewrite IH.
Qed.

Lemma digit_of_digit_char d : 0 <= d < 16 -> digit_of_char (digit_char d) = d.
Proof.
  intros H.
  assert (Hd : In d [0;1;2;3;4;5;6;7;8;9;10;11;12;13;14;15]) by (cbn; lia).
  cbn in Hd. repeat (destruct Hd as [<-|Hd]; [reflexivity|]). destruct Hd.
Qed.

Lemma render_digits_acc fuel : forall base n acc,
  render_digits fuel base n acc = render_digits fuel base n EmptyString +:+ acc.
Proof.
  induction fuel as [|fuel IH]; intros base n acc; cbn [render_digits]; [reflexivity|].
  destruct (n / base =? 0); [reflexivity|].
  rewrite IH, (IH _ _ (String _ EmptyString)), append_assoc. reflexivity.
Qed.

Lemma value_from_append base a : forall b v,
  value_from base (a +:+ b) v = value_from base b (value_from base a v).
Proof.
  induction a as [|c a IH]; intros b v; [reflexivity|].
  rewrite append_cons. cbn [value_from]. apply IH.
Qed.

Lemma render_digits_value base fuel : forall n,
  2 <= base <= 16 -> 0 <= n < base ^ Z.of_nat fuel ->
  value_from base (render_digits fuel base n EmptyString) 0 = n.
Proof.
  induction fuel as [|fuel IH]; intros n Hb Hn.
  - cbn in *. lia.
  - cbn [render_digits].
    assert (Hmod : 0 <= n mod base < 16) by (pose proof (Z.mod_pos_bound n base); lia).
    destruct (Z.eqb_spec (n / base) 0) as [Hq|Hq].
    + cbn [value_from]. rewrite digit_of_digit_char by exact Hmod.
      pose proof (Z.div_mod n base). lia.
    + rewrite render_digits_acc, value_from_append. cbn [value_from].
      rewrite digit_of_digit_char by exact Hmod.
      rewrite IH; [pose proof (Z.div_mod n base); lia|exact Hb|].
      rewrite Nat2Z.inj_succ, Z.pow_succ_r in Hn by lia.
      split; [apply Z.div_pos; lia|apply Z.div_lt_upper_bound; lia].
Qed.

Lemma render_unsigned_value base n :
  2 <= base <= 16 -> 0 <= n -> value_from base (render_unsigned base n) 0 = n.
Proof.
  intros Hb Hn. unfold render_unsigned. apply render_digits_value; [exact Hb|].
  split; [exact Hn|].
  rewrite Nat2Z.inj_succ, Z2Nat.id by apply Z.log2_nonneg.
  destruct (Z.eq_dec n 0) as [->|Hz]; [cbn; lia|].
  pose proof (Z.log2_spec n ltac:(lia)) as [_ Hlt].
  pose proof (Z.pow_le_mono_l 2 base (Z.succ (Z.log2 n)) ltac:(lia)). lia.
Qed.

(** The digits written for a number denote that number: the fuel of
    [render_unsigned] is enough, in base ten and in base sixteen. *)
Lemma to_string_value n : 0 <= n -> value_from 10 (to_string n) 0 = n.
Proof. intros H. apply render_unsigned_value; lia. Qed.

Lemma to_hex_value n : 0 <= n -> value_from 16 (to_hex n) 0 = n.
Proof. intros H. apply render_unsigned_value; lia. Qed.

(** ** The flag only goes up (C3) *)

(** What one iteration of the watcher does to the store: nothing, or one
    [install]. *)
Lemma watch_cycle_cases listing w :
  Linux.watch_cycle listing w = w
  \/ exists pidVal newestFull,
       Linux.watch_cycle listing w
       = Linux.mkWatcher newestFull (Linux.install pidVal newestFull (Linux.store w)).
Proof.
  unfold Linux.watch_cycle, Linux.watch_cycle_log.
  destruct listing as [entries|]; [|now left].
  destruct (Linux.scan entries) as [t np].
  destruct (negb (Linux.path_empty np)); [|now left].
  destruct (negb _); [|now left].
  right; eauto.
Qed.

Lemma linux_run_flag evs : forall w,
  Linux.g_crashHappened (Linux.store w) = true ->
  Linux.g_crashHappened (Linux.store (Linux.run evs w)) = true.
Proof.
  induction evs as [|ev evs IH]; intros w Hf; cbn; [exact Hf|].
  apply IH. destruct ev as [listing|]; cbn; [|exact Hf].
  destruct (watch_cycle_cases listing w) as [-> | (pv & nf & ->)]; auto.
Qed.

Lemma linux_run_have evs : forall w,
  Linux.haveCrash (Linux.g_lastCrash (Linux.store w)) = true ->
  Linux.haveCrash (Linux.g_lastCrash (Linux.store (Linux.run evs w))) = true.
Proof.
  induction evs as [|ev evs IH]; intros w Hf; cbn; [exact Hf|].
  apply IH. destruct ev as [listing|]; cbn; [|exact Hf].
  destruct (watch_cycle_cases listing w) as [-> | (pv & nf & ->)]; auto.
Qed.

(** What the filter does to the store: nothing, when the exception leaves
    it, or one [install]. *)
Lemma windows_filter_store f a :
  Windows.store (fst (Windows.MyUnhandledExceptionFilter f a))
  = match snd (Windows.CreateCrashJSON f (default "unknown" (Windows.ModuleFileName f))
                 (Windows.CurrentProcessId f) (Windows.ExceptionCode f) (Windows.disk a)) with
    | Some jsonFile =>
        Windows.install (default "unknown" (Windows.ModuleFileName f))
          (Windows.CurrentProcessId f) (Windows.ExceptionCode f) jsonFile (Windows.store a)
    | None => Windows.store a
    end.
Proof.
  unfold Windows.MyUnhandledExceptionFilter.
  destruct (Windows.CreateCrashJSON _ _ _ _ _) as [d [j|]]; [|reflexivity].
  destruct (Windows.g_originalFilter a); reflexivity.
Qed.

Lemma windows_run_flag evs : forall a,
  Windows.g_crashHappened (Windows.store a) = true ->
  Windows.g_crashHappened (Windows.store (Windows.run evs a)) = true.
Proof.
  induction evs as [|ev evs IH]; intros a Hf; cbn; [exact Hf|].
  apply IH. destruct ev as [f|]; cbn [Windows.step]; [|exact Hf].
  rewrite windows_filter_store. now destruct (snd _).
Qed.

Lemma windows_run_have evs : forall a,
  Windows.haveCrash (Windows.g_lastCrash (Windows.store a)) = true ->
  Windows.haveCrash (Windows.g_lastCrash (Windows.store (Windows.run evs a))) = true.
Proof.
  induction evs as [|ev evs IH]; intros a Hf; cbn; [exact Hf|].
  apply IH. destruct ev as [f|]; cbn [Windows.step]; [|exact Hf].
  rewrite windows_filter_store. now destruct (snd _).
Qed.

(** C3. In both agents the crash-present flag ([g_crashHappened], and the
    [haveCrash] field with it) is false when the process starts; every
    update of the store writes true to both; and from any state, whatever
    the detector and the responder do next and in whatever order, a flag
    that is true stays true. *)
Theorem present_never_reverts :
  (Linux.g_crashHappened Linux.store_init = false
   /\ Linux.haveCrash (Linux.g_lastCrash Linux.store_init) = false
   /\ (forall pidVal file s,
         Linux.g_crashHappened (Linux.install pidVal file s) = true
         /\ Linux.haveCrash (Linux.g_lastCrash (Linux.install pidVal file s)) = true)
   /\ (forall evs w,
         Linux.g_crashHappened (Linux.store w) = true ->
         Linux.g_crashHappened (Linux.store (Linux.run evs w)) = true)
   /\ (forall evs w,
         Linux.haveCrash (Linux.g_lastCrash (Linux.store w)) = true ->
         Linux.haveCrash (Linux.g_lastCrash (Linux.store (Linux.run evs w))) = true))
  /\
  (Windows.g_crashHappened Windows.store_init = false
   /\ Windows.haveCrash (Windows.g_lastCrash Windows.store_init) = false
   /\ (forall exe p code file s,
         Windows.g_crashHappened (Windows.install exe p code file s) = true
         /\ Windows.haveCrash (Windows.g_lastCrash (Windows.install exe p code file s)) = true)
   /\ (forall evs a,
         Windows.g_crashHappened (Windows.store a) = true ->
         Windows.g_crashHappened (Windows.store (Windows.run evs a)) = true)
   /\ (forall evs a,
         Windows.haveCrash (Windows.g_lastCrash (Windows.store a)) = true ->
         Windows.haveCrash (Windows.g_lastCrash (Windows.store (Windows.run evs a))) = true)).
Proof.
  split.
  - repeat split; auto using linux_run_flag, linux_run_have.
  - repeat split; auto using windows_run_flag, windows_run_have.
Qed.

(** A crash is seen in [core.7], then the directory is found empty, a
    client asks, and the directory is gone: the flag is still up. *)
Lemma present_never_reverts_witness :
  let w := Linux.watch_cycle (Some [Linux.mkDirent "core.7" true 5]) Linux.watcher_init in
  Linux.g_crashHappened (Linux.store w) = true
  /\ Linux.g_crashHappened
       (Linux.store (Linux.run [Linux.Poll (Some []); Linux.Query; Linux.Poll None] w)) = true.
Proof.
  split; [reflexivity|].
  apply (proj1 (proj2 (proj2 (proj2 (proj1 present_never_reverts))))).
  reflexivity.
Defined.

(** ** No crash, no fields (C4) *)









(** ** The scan picks the newest core file (C6) *)

Lemma entry_path_not_empty e : Linux.path_empty (Linux.entry_path e) = false.
Proof. reflexivity. Qed.

Lemma scan_step_skip acc e :
  Linux.eligible e = false -> Linux.scan_step acc e = acc.
Proof.
  unfold Linux.eligible, Linux.scan_step. destruct acc as [t p].
  destruct (Linux.d_regular e); cbn; [|reflexivity].
  now intros ->.
Qed.

Lemma scan_step_take t p e :
  Linux.eligible e = true ->
  Linux.scan_step (t, p) e
  = if t <? Linux.d_mtime e then (Linux.d_mtime e, Linux.entry_path e) else (t, p).
Proof.
  unfold Linux.eligible, Linux.scan_step.
  destruct (Linux.d_regular e); cbn; [|discriminate].
  now intros ->.
Qed.

Lemma scan_inv_step seen acc e :
  Linux.scan_inv seen acc -> Linux.scan_inv (seen ++ [e]) (Linux.scan_step acc e).
Proof.
  destruct acc as [t p]. intros (Hmax & Hnone & Hsome).
  destruct (Linux.eligible e) eqn:El.
  - rewrite (scan_step_take t p e El).
    destruct (Z.ltb_spec t (Linux.d_mtime e)) as [Hlt|Hge].
    + (* the entry becomes the candidate *)
      split; [|split].
      * intros x Hin Hx. apply in_app_or in Hin as [Hin|[<-|[]]]; [|lia].
        specialize (Hmax x Hin Hx). lia.
      * rewrite entry_path_not_empty. discriminate.
      * intros _. exists seen, e, []. repeat split; auto.
        intros x Hin Hx. specialize (Hmax x Hin Hx). lia.
    + (* the candidate stays *)
      split; [|split].
      * intros x Hin Hx. apply in_app_or in Hin as [Hin|[<-|[]]]; auto.
      * exact Hnone.
      * intros Hp. destruct (Hsome Hp) as (b & c & a & -> & Hc).
        exists b, c, (a ++ [e]). split; [|exact Hc].
        now rewrite <- app_assoc.
  - rewrite (scan_step_skip (t, p) e El).
    split; [|split].
    + intros x Hin Hx. apply in_app_or in Hin as [Hin|[<-|[]]]; [auto|congruence].
    + exact Hnone.
    + intros Hp. destruct (Hsome Hp) as (b & c & a & -> & Hc).
      exists b, c, (a ++ [e]). split; [|exact Hc].
      now rewrite <- app_assoc.
Qed.

Lemma scan_inv_fold entries : forall seen acc,
  Linux.scan_inv seen acc ->
  Linux.scan_inv (seen ++ entries) (fold_left Linux.scan_step entries acc).
Proof.
  induction entries as [|e entries IH]; intros seen acc H; cbn [fold_left].
  - now rewrite app_nil_r.
  - replace (seen ++ e :: entries) with ((seen ++ [e]) ++ entries)
      by now rewrite <- app_assoc.
    apply IH, scan_inv_step, H.
Qed.

Lemma scan_inv_scan entries : Linux.scan_inv entries (Linux.scan entries).
Proof.
  apply (scan_inv_fold entries [] (Linux.file_time_min, Linux.path_default)).
  split; [|split].
  - intros x [].
  - reflexivity.
  - discriminate.
Qed.

Lemma scan_ignores_skipped entries : forall acc,
  fold_left Linux.scan_step entries acc
  = fold_left Linux.scan_step (List.filter Linux.eligible entries) acc.
Proof.
  induction entries as [|e entries IH]; intros acc; cbn [fold_left List.filter]; [reflexivity|].
  destruct (Linux.eligible e) eqn:El; cbn [fold_left].
  - apply IH.
  - rewrite (scan_step_skip acc e El). apply IH.
Qed.

(** C6. In every poll cycle the scan ignores the entries that are not
    regular files or whose name does not begin with [core.] (the result is
    that of the scan of the other entries alone); the candidate it returns
    is one of these other entries, none of them has a greater modification
    time, and those met before it have a strictly smaller one, so that
    among entries with the same greatest time the first met is kept; and it
    returns no candidate only when no such entry is newer than the time the
    scan starts from. *)
Theorem scan_selects_newest (entries : list Linux.dirent) :
  Linux.scan entries = Linux.scan (List.filter Linux.eligible entries)
  /\ (Linux.path_empty (snd (Linux.scan entries)) = false ->
      exists before e after,
        entries = before ++ e :: after
        /\ Linux.scan entries = (Linux.d_mtime e, Linux.entry_path e)
        /\ Linux.d_regular e = true
        /\ starts_with "core." (Linux.d_name e) = true
        /\ (forall x, In x before -> Linux.eligible x = true ->
                      Linux.d_mtime x < Linux.d_mtime e)
        /\ (forall x, In x after -> Linux.eligible x = true ->
                      Linux.d_mtime x <= Linux.d_mtime e))
  /\ (Linux.path_empty (snd (Linux.scan entries)) = true ->
      forall x, In x entries -> Linux.eligible x = true ->
                Linux.d_mtime x <= Linux.file_time_min).
Proof.
  split; [apply scan_ignores_skipped|].
  pose proof (scan_inv_scan entries) as H.
  destruct (Linux.scan entries) as [t p]. destruct H as (Hmax & Hnone & Hsome).
  cbn [snd]. split.
  - intros Hp. destruct (Hsome Hp) as (b & e & a & -> & -> & -> & El & Hb).
    exists b, e, a. split; [reflexivity|]. split; [reflexivity|].
    unfold Linux.eligible in El. apply andb_prop in El as [Hr Hn].
    repeat split; auto.
    intros x Hin Hx. apply Hmax; [|exact Hx].
    apply in_or_app. right. now right.
  - intros Hp x Hin Hx. rewrite <- (Hnone Hp). now apply Hmax.
Qed.

(** A directory, a socket, and three core files of which the two newest
    have the same time: [core.20], met before [core.30], is the candidate. *)
Lemma scan_selects_newest_witness :
  let entries :=
    [Linux.mkDirent "logs" false 99; Linux.mkDirent "core.10" true 5;
     Linux.mkDirent "agent.sock" true 50; Linux.mkDirent "core.20" true 7;
     Linux.mkDirent "core.30" true 7] in
  Linux.path_empty (snd (Linux.scan entries)) = false
  /\ exists before e after,
       entries = before ++ e :: after
       /\ Linux.scan entries = (Linux.d_mtime e, Linux.entry_path e)
       /\ Linux.d_regular e = true
       /\ starts_with "core." (Linux.d_name e) = true
       /\ (forall x, In x before -> Linux.eligible x = true ->
                     Linux.d_mtime x < Linux.d_mtime e)
       /\ (forall x, In x after -> Linux.eligible x = true ->
                     Linux.d_mtime x <= Linux.d_mtime e).
Proof.
  cbv zeta. split; [reflexivity|].
  apply (proj1 (proj2 (scan_selects_newest _))). reflexivity.
Defined.

Example scan_tie_first_met :
  Linux.scan [Linux.mkDirent "core.20" true 7; Linux.mkDirent "core.30" true 7]
  = (7, Linux.mkPath Linux.CRASH_DIR "core.20").
Proof. reflexivity. Qed.

(** ** The watcher reports a path once while it stays the newest (C5) *)

Lemma watch_cycle_log_seen entries w :
  Linux.path_string (snd (Linux.scan entries)) = Linux.lastCore w ->
  Linux.watch_cycle_log (Some entries) w = (w, None).
Proof.
  unfold Linux.watch_cycle_log. destruct (Linux.scan entries) as [t np]. cbn [snd].
  intros ->. destruct (negb (Linux.path_empty np)); [|reflexivity].
  now rewrite String.eqb_refl.
Qed.

Lemma watch_cycle_log_new entries w :
  Linux.path_empty (snd (Linux.scan entries)) = false ->
  Linux.path_string (snd (Linux.scan entries)) <> Linux.lastCore w ->
  Linux.watch_cycle_log (Some entries) w
  = (let newestPath := snd (Linux.scan entries) in
     let newestFull := Linux.path_string newestPath in
     let pidVal := to_ulong (Linux.parsePID (Linux.filename newestPath)) in
     (Linux.mkWatcher newestFull (Linux.install pidVal newestFull (Linux.store w)),
      Some (Linux.detected_line newestFull pidVal))).
Proof.
  unfold Linux.watch_cycle_log. destruct (Linux.scan entries) as [t np]. cbn [snd].
  intros -> Hne. cbn [negb].
  apply String.eqb_neq in Hne. now rewrite Hne.
Qed.

Lemma watch_cycle_lastCore listing w :
  Linux.watch_cycle listing w = w
  \/ exists entries,
       listing = Some entries
       /\ Linux.lastCore (Linux.watch_cycle listing w)
          = Linux.path_string (snd (Linux.scan entries)).
Proof.
  unfold Linux.watch_cycle, Linux.watch_cycle_log.
  destruct listing as [entries|]; [|now left].
  destruct (Linux.scan entries) as [t np] eqn:E.
  destruct (negb (Linux.path_empty np)); [|now left].
  destruct (negb _); [|now left].
  right. exists entries. now rewrite E.
Qed.

Lemma watch_cycle_twice listing w :
  Linux.watch_cycle_log listing (Linux.watch_cycle listing w)
  = (Linux.watch_cycle listing w, None).
Proof.
  destruct (watch_cycle_lastCore listing w) as [Hsame | (entries & -> & Hlast)].
  - rewrite Hsame. unfold Linux.watch_cycle in Hsame.
    destruct listing as [entries|]; [|reflexivity].
    unfold Linux.watch_cycle_log in *.
    destruct (Linux.scan entries) as [t np].
    destruct (negb (Linux.path_empty np)); [|reflexivity].
    destruct (String.eqb_spec (Linux.path_string np) (Linux.lastCore w)) as [He|Hne];
      [reflexivity|].
    cbn in Hsame. rewrite <- Hsame in Hne. now cbn in Hne.
  - apply watch_cycle_log_seen. now rewrite Hlast.
Qed.


Lemma updates_for_seen file listings : forall w,
  Linux.lastCore w = file ->
  Forall (Linux.newest_is file) listings ->
  Linux.updates_for file listings w = O.
Proof.
  induction listings as [|l listings IH]; intros w Hw Hall; [reflexivity|].
  inversion Hall as [|? ? (entries & -> & Hnew) Hrest]; subst.
  cbn [Linux.updates_for]. unfold Linux.updates_store, Linux.watch_cycle.
  rewrite (watch_cycle_log_seen entries w) by congruence.
  cbn. now apply IH.
Qed.

Lemma updates_for_while_newest file listings : forall w,
  Forall (Linux.newest_is file) listings ->
  (Linux.updates_for file listings w <= 1)%nat.
Proof.
  induction listings as [|l listings IH]; intros w Hall; [cbn; lia|].
  inversion Hall as [|? ? (entries & -> & Hnew) Hrest]; subst.
  cbn [Linux.updates_for]. unfold Linux.updates_store, Linux.watch_cycle.
  destruct (String.eqb_spec (Linux.path_string (snd (Linux.scan entries))) (Linux.lastCore w))
    as [Heq|Hne].
  - rewrite (watch_cycle_log_seen entries w Heq). cbn. apply IH, Hrest.
  - destruct (Linux.path_empty (snd (Linux.scan entries))) eqn:Hp.
    + (* no candidate at all *)
      unfold Linux.watch_cycle_log. destruct (Linux.scan entries) as [t np].
      cbn [snd] in *. rewrite Hp. cbn. apply IH, Hrest.
    + rewrite (watch_cycle_log_new entries w Hp Hne). cbn [fst snd].
      rewrite updates_for_seen; [|reflexivity|exact Hrest].
      destruct (_ && _); lia.
Qed.

(** C5, amended. When the path of the newest core file found in a poll
    cycle is the one the watcher remembers from an earlier cycle, the cycle
    changes neither the store nor the remembered path and writes nothing; a
    second poll of a directory found in the same state leaves the store as
    the first left it; and over any run of cycles in which one file stays
    the newest, the store is updated for it at most once. *)
Theorem dedup_while_newest :
  (forall entries w,
     Linux.path_string (snd (Linux.scan entries)) = Linux.lastCore w ->
     Linux.watch_cycle_log (Some entries) w = (w, None))
  /\ (forall listing w,
        Linux.watch_cycle listing (Linux.watch_cycle listing w) = Linux.watch_cycle listing w
        /\ Linux.updates_store listing (Linux.watch_cycle listing w) = false)
  /\ (forall file listings w,
        Forall (Linux.newest_is file) listings ->
        (Linux.updates_for file listings w <= 1)%nat).
Proof.
  split; [exact watch_cycle_log_seen|]. split; [|exact updates_for_while_newest].
  intros listing w. unfold Linux.updates_store.
  unfold Linux.watch_cycle at 1. rewrite watch_cycle_twice. split; reflexivity.
Qed.

(** [core.100] was reported in an earlier cycle and the directory has not
    changed: nothing happens. *)
Lemma dedup_while_newest_witness :
  let dir := [Linux.mkDirent "core.100" true 1700000000] in
  let w := Linux.watch_cycle (Some dir) Linux.watcher_init in
  Linux.path_string (snd (Linux.scan dir)) = Linux.lastCore w
  /\ Linux.watch_cycle_log (Some dir) w = (w, None).
Proof.
  cbv zeta. split; [reflexivity|].
  apply (proj1 dedup_while_newest). reflexivity.
Defined.

(** C5 as stated fails: [core.1] is reported, then the newer [core.2] is,
    then [core.2] is removed and the untouched [core.1], the newest again,
    is reported a second time. *)
Lemma dedup_at_most_once_fails :
  ~ (Linux.updates_for "/mnt/virtfs/fawkes/crashes/core.1"
       [Some [Linux.mkDirent "core.1" true 5];
        Some [Linux.mkDirent "core.1" true 5; Linux.mkDirent "core.2" true 6];
        Some [Linux.mkDirent "core.1" true 5]]
       Linux.watcher_init <= 1)%nat.
Proof. vm_compute. lia. Qed.

(** ** A core file whose suffix is not a number (C7, C9) *)

Lemma parsePID_unparsed name :
  stoi (substr_from 5 name) = None -> Linux.parsePID name = -1.
Proof.
  unfold Linux.parsePID. intros H.
  destruct (starts_with "core." name); [|reflexivity].
  cbn [String.length]. now rewrite H.
Qed.

(** [std::stoi] reads the digits it finds and ignores what follows them. *)
Example parsePID_examples :
  Linux.parsePID "core.4242" = 4242
  /\ Linux.parsePID "core.12abc" = 12
  /\ Linux.parsePID "core." = -1
  /\ Linux.parsePID "core.99999999999" = -1
  /\ Linux.parsePID "core.oops" = -1.
Proof. repeat split. Qed.

(** [parsePID] never throws: it yields the number [std::stoi] reads after
    [core.], and -1 in every other case. *)
Lemma parsePID_cases name :
  (exists v, stoi (substr_from 5 name) = Some v /\ Linux.parsePID name = v)
  \/ Linux.parsePID name = -1.
Proof.
  unfold Linux.parsePID.
  destruct (starts_with "core." name); [|now right].
  cbn [String.length]. destruct (stoi (substr_from 5 name)) as [v|]; eauto.
Qed.

Lemma watch_cycle_unparsed_store (entries : list Linux.dirent) (w : Linux.Watcher) :
  Linux.path_empty (snd (Linux.scan entries)) = false ->
  Linux.path_string (snd (Linux.scan entries)) <> Linux.lastCore w ->
  stoi (substr_from 5 (Linux.filename (snd (Linux.scan entries)))) = None ->
  Linux.parsePID (Linux.filename (snd (Linux.scan entries))) = -1
  /\ Linux.store (Linux.watch_cycle (Some entries) w)
     = Linux.mkStore true
         (Linux.mkCrashInfo true "unknown" (to_ulong (-1)) 0xC0000005
            (Linux.path_string (snd (Linux.scan entries)))).
Proof.
  intros Hp Hne Hstoi. split; [now apply parsePID_unparsed|].
  unfold Linux.watch_cycle.
  rewrite (watch_cycle_log_new entries w Hp Hne). cbn [fst snd Linux.store].
  now rewrite (parsePID_unparsed _ Hstoi).
Qed.

(** C7. When [std::stoi] cannot read a number after [core.] in the name of
    the newest core file (it throws), [parsePID] returns -1, and the cycle
    that finds this file for the first time installs the record all the
    same: both flags true, ["unknown"] as executable, the placeholder
    exception code, the path of the file, and -1 converted to the
    [unsigned long] of the [pid] field. *)
Theorem unparsed_pid_still_installed (entries : list Linux.dirent) (w : Linux.Watcher) :
  let newestPath := snd (Linux.scan entries) in
  Linux.path_empty newestPath = false ->
  Linux.path_string newestPath <> Linux.lastCore w ->
  stoi (substr_from 5 (Linux.filename newestPath)) = None ->
  Linux.parsePID (Linux.filename newestPath) = -1
  /\ Linux.updates_store (Some entries) w = true
  /\ Linux.store (Linux.watch_cycle (Some entries) w)
     = Linux.mkStore true
         (Linux.mkCrashInfo true "unknown" (to_ulong (-1)) 0xC0000005
            (Linux.path_string newestPath)).
Proof.
  intros newestPath Hp Hne Hstoi. subst newestPath.
  split; [now apply parsePID_unparsed|].
  unfold Linux.updates_store, Linux.watch_cycle.
  rewrite (watch_cycle_log_new entries w Hp Hne). cbn [fst snd Linux.store].
  rewrite (parsePID_unparsed _ Hstoi). split; reflexivity.
Qed.

(** The core file is named [core.oops]. *)
Lemma unparsed_pid_still_installed_witness :
  Linux.parsePID "core.oops" = -1
  /\ Linux.updates_store (Some [Linux.mkDirent "core.oops" true 5]) Linux.watcher_init = true
  /\ Linux.store
       (Linux.watch_cycle (Some [Linux.mkDirent "core.oops" true 5]) Linux.watcher_init)
     = Linux.mkStore true
         (Linux.mkCrashInfo true "unknown" (to_ulong (-1)) 0xC0000005
            "/mnt/virtfs/fawkes/crashes/core.oops").
Proof.
  apply (unparsed_pid_still_installed [Linux.mkDirent "core.oops" true 5] Linux.watcher_init).
  - reflexivity.
  - vm_compute. discriminate.
  - reflexivity.
Defined.

(** C9. In that case the [int] -1 of [parsePID], stored in the
    [unsigned long] field, is 2^64 - 1 = 18446744073709551615, and the
    response writes these twenty digits after ["pid": ], not [-1]. *)
Theorem unparsed_pid_wraps (hex dec : string) (entries : list Linux.dirent) (w : Linux.Watcher) :
  let newestPath := snd (Linux.scan entries) in
  let w' := Linux.watch_cycle (Some entries) w in
  Linux.path_empty newestPath = false ->
  Linux.path_string newestPath <> Linux.lastCore w ->
  stoi (substr_from 5 (Linux.filename newestPath)) = None ->
  Linux.parsePID (Linux.filename newestPath) = -1
  /\ Linux.pid (Linux.g_lastCrash (Linux.store w')) = 2 ^ 64 - 1
  /\ Linux.pid (Linux.g_lastCrash (Linux.store w')) = 18446744073709551615
  /\ Linux.response hex dec (Linux.store w')
     = "{ " +:+ dquote +:+ "crash" +:+ dquote +:+ ": true, "
         +:+ dquote +:+ "pid" +:+ dquote +:+ ": 18446744073709551615, "
         +:+ dquote +:+ "exe" +:+ dquote +:+ ": " +:+ dquote +:+ "unknown" +:+ dquote +:+ ", "
         +:+ dquote +:+ "exception" +:+ dquote +:+ ": " +:+ dquote +:+ "0x"
         +:+ hex +:+ "3221225477" +:+ dec +:+ dquote +:+ ", "
         +:+ dquote +:+ "file" +:+ dquote +:+ ": " +:+ dquote
         +:+ Linux.path_string newestPath +:+ dquote +:+ " }" +:+ newline.
Proof.
  intros newestPath w' Hp Hne Hstoi.
  destruct (watch_cycle_unparsed_store entries w Hp Hne Hstoi) as [Hpid Hstore].
  subst w' newestPath. rewrite Hstore.
  split; [exact Hpid|]. repeat split.
Qed.

(** [core.oops] again, with nothing written for the two manipulators. *)
Lemma unparsed_pid_wraps_witness :
  Linux.pid
    (Linux.g_lastCrash
       (Linux.store
          (Linux.watch_cycle (Some [Linux.mkDirent "core.oops" true 5]) Linux.watcher_init)))
  = 18446744073709551615.
Proof.
  apply (unparsed_pid_wraps EmptyString EmptyString
           [Linux.mkDirent "core.oops" true 5] Linux.watcher_init).
  - reflexivity.
  - vm_compute. discriminate.
  - reflexivity.
Defined.

(** ** The exception field of the Linux response (C1) *)

(** The two responses to a store that holds a crash, spelled out. *)
Lemma linux_response_installed hex dec pidVal file s0 :
  Linux.response hex dec (Linux.install pidVal file s0)
  = "{ " +:+ quoted "crash" +:+ ": true, " +:+ quoted "pid" +:+ ": "
      +:+ to_string pidVal
      +:+ ", " +:+ quoted "exe" +:+ ": " +:+ dquote +:+ "unknown"
      +:+ dquote +:+ ", " +:+ quoted "exception" +:+ ": " +:+ dquote +:+ "0x"
      +:+ hex +:+ "3221225477" +:+ dec
      +:+ dquote +:+ ", " +:+ quoted "file" +:+ ": " +:+ dquote
      +:+ file +:+ dquote +:+ " }" +:+ newline.
Proof. reflexivity. Qed.

Lemma linux_canonical_installed pidVal file s0 :
  Linux.response_canonical (Linux.install pidVal file s0)
  = "{ " +:+ quoted "crash" +:+ ": true, " +:+ quoted "pid" +:+ ": "
      +:+ to_string pidVal
      +:+ ", " +:+ quoted "exe" +:+ ": " +:+ dquote +:+ "unknown"
      +:+ dquote +:+ ", " +:+ quoted "exception" +:+ ": " +:+ dquote +:+ "0x"
      +:+ "c0000005"
      +:+ dquote +:+ ", " +:+ quoted "file" +:+ ": " +:+ dquote
      +:+ file +:+ dquote +:+ " }" +:+ newline.
Proof. reflexivity. Qed.

(** C1, on the code. Once the watcher has installed a crash, the
    exception code [0xC0000005] reaches the response through
    [std::to_string], as the ten decimal digits [3221225477]; whatever text
    the two manipulators around it stand for, the response is not the
    canonical one, in which [0x] is followed by [c0000005]. *)
Theorem linux_exception_field_is_decimal
    (hex dec : string) (pidVal : Z) (file : string) (s0 : Linux.Store) :
  let s := Linux.install pidVal file s0 in
  Linux.response hex dec s
  = "{ " +:+ quoted "crash" +:+ ": true, " +:+ quoted "pid" +:+ ": "
      +:+ to_string pidVal
      +:+ ", " +:+ quoted "exe" +:+ ": " +:+ quoted "unknown"
      +:+ ", " +:+ quoted "exception" +:+ ": " +:+ dquote +:+ "0x"
      +:+ hex +:+ to_string 0xC0000005 +:+ dec
      +:+ dquote +:+ ", " +:+ quoted "file" +:+ ": " +:+ dquote +:+ file +:+ dquote
      +:+ " }" +:+ newline
  /\ to_string 0xC0000005 = "3221225477"
  /\ to_hex 0xC0000005 = "c0000005"
  /\ Linux.response hex dec s <> Linux.response_canonical s.
Proof.
  cbv zeta. split; [reflexivity|]. split; [reflexivity|]. split; [reflexivity|].
  rewrite linux_response_installed, linux_canonical_installed. intros H.
  repeat (apply append_cancel_l in H).
  apply (f_equal String.length) in H.
  rewrite !append_length in H. cbn [String.length] in H. lia.
Qed.

(** The end-to-end scenario of the specification: [core.4242] appears, the
    watcher polls, a client asks. Nothing is written for the two
    manipulators. *)
Example linux_scenario_core_4242 :
  let w := Linux.watch_cycle
             (Some [Linux.mkDirent "core.4242" true 1700000000]) Linux.watcher_init in
  let r := Linux.response EmptyString EmptyString (Linux.store w) in
  r = "{ " +:+ quoted "crash" +:+ ": true, " +:+ quoted "pid" +:+ ": 4242, "
        +:+ quoted "exe" +:+ ": " +:+ quoted "unknown" +:+ ", "
        +:+ quoted "exception" +:+ ": " +:+ quoted "0x3221225477" +:+ ", "
        +:+ quoted "file" +:+ ": " +:+ quoted "/mnt/virtfs/fawkes/crashes/core.4242"
        +:+ " }" +:+ newline
  /\ contains (quoted "exception" +:+ ": " +:+ quoted "0xc0000005") r = false.
Proof. split; vm_compute; reflexivity. Qed.

(** ** Configuring twice (C8) *)

Lemma setrlimit_again pr cur max sys sys' :
  Linux.setrlimit pr cur max sys = Some sys' ->
  Linux.setrlimit pr cur max sys' = Some sys'.
Proof.
  unfold Linux.setrlimit. destruct (max <? cur); [discriminate|].
  destruct (Linux.cap_sys_resource pr || (max <=? Linux.rlim_max sys)); [|discriminate].
  intros [= <-]. cbn. rewrite Z.leb_refl, orb_true_r. reflexivity.
Qed.

Lemma ConfigureCorePattern_again pr sys :
  Linux.ConfigureCorePattern pr (fst (Linux.ConfigureCorePattern pr sys))
  = Linux.ConfigureCorePattern pr sys.
Proof.
  unfold Linux.ConfigureCorePattern.
  destruct (Linux.may_write_core_pattern pr); cbn [negb fst]; [|reflexivity].
  destruct (Linux.setrlimit pr _ _ (Linux.mkSystem _ (Linux.rlim_cur sys) _)) as [sys2|] eqn:E;
    cbn [fst].
  - pose proof (setrlimit_again _ _ _ _ _ E) as E2.
    unfold Linux.setrlimit in E. destruct (_ <? _); [discriminate|].
    destruct (_ || _); [|discriminate]. injection E as <-.
    cbn in *. now rewrite E2.
  - cbn. now rewrite E.
Qed.

Lemma ConfigureWER_again ac (reg : gmap string (gmap string Windows.reg_data)) :
  Windows.ConfigureWER ac (fst (Windows.ConfigureWER ac reg)) = Windows.ConfigureWER ac reg.
Proof.
  unfold Windows.ConfigureWER, Windows.RegCreateKeyExA, Windows.RegSetValueExA.
  destruct (Windows.may_open_key ac) eqn:Ho; [|reflexivity].
  destruct (Windows.may_set_value ac "DumpFolder") eqn:Hf;
  destruct (Windows.may_set_value ac "DumpType") eqn:Ht;
  destruct (reg !! Windows.WER_KEY) as [vals|] eqn:Hk;
    cbn; rewrite ?Ho, ?Hf, ?Ht; cbn; simplify_map_eq; cbn; rewrite ?Hf, ?Ht; cbn;
    f_equal; apply map_eq; intros k;
    destruct (decide (k = Windows.WER_KEY)) as [->|Hne]; simplify_map_eq; try reflexivity;
    f_equal; apply map_eq; intros n;
    destruct (decide (n = "DumpFolder")) as [->|Hn1]; simplify_map_eq; try reflexivity;
    destruct (decide (n = "DumpType")) as [->|Hn2]; simplify_map_eq; reflexivity.
Qed.

Lemma ConfigureWER_allowed ac (reg : gmap string (gmap string Windows.reg_data)) :
  Windows.may_open_key ac = true ->
  Windows.may_set_value ac "DumpFolder" = true ->
  Windows.may_set_value ac "DumpType" = true ->
  snd (Windows.ConfigureWER ac reg) = true
  /\ (fst (Windows.ConfigureWER ac reg) !! Windows.WER_KEY) ≫= (fun vals => vals !! "DumpFolder")
     = Some (Windows.REG_SZ Windows.CRASH_SUBDIR)
  /\ (fst (Windows.ConfigureWER ac reg) !! Windows.WER_KEY) ≫= (fun vals => vals !! "DumpType")
     = Some (Windows.REG_DWORD 2).
Proof.
  intros Ho Hf Ht.
  unfold Windows.ConfigureWER, Windows.RegCreateKeyExA, Windows.RegSetValueExA.
  rewrite Ho. destruct (reg !! Windows.WER_KEY) as [vals|] eqn:Hk;
    cbn; rewrite Hf; cbn; rewrite Ht; cbn; simplify_map_eq; cbn; simplify_map_eq; auto.
Qed.

Lemma ConfigureCorePattern_allowed pr sys :
  Linux.may_write_core_pattern pr = true ->
  Linux.cap_sys_resource pr = true ->
  Linux.ConfigureCorePattern pr sys
  = (Linux.mkSystem (Linux.CORE_PATTERN_VALUE +:+ newline)
       Linux.RLIM_INFINITY Linux.RLIM_INFINITY, true).
Proof.
  intros Hw Hc. unfold Linux.ConfigureCorePattern, Linux.setrlimit.
  rewrite Hw, Hc. reflexivity.
Qed.

(** C8. Run a second time with the same rights, each configurator leaves
    exactly the state its first run left and returns what the first run
    returned: the key and the values that are already there raise no error.
    With the rights it needs, the Windows one returns true both times and
    [DumpFolder] and [DumpType] hold the crash directory and 2; the Linux
    one returns true both times and the pattern and an unlimited core size
    are in place. *)
Theorem configurator_idempotent :
  (forall ac (reg : gmap string (gmap string Windows.reg_data)),
     Windows.ConfigureWER ac (fst (Windows.ConfigureWER ac reg))
     = Windows.ConfigureWER ac reg)
  /\ (forall ac (reg : gmap string (gmap string Windows.reg_data)),
        Windows.may_open_key ac = true ->
        Windows.may_set_value ac "DumpFolder" = true ->
        Windows.may_set_value ac "DumpType" = true ->
        let reg1 := fst (Windows.ConfigureWER ac reg) in
        snd (Windows.ConfigureWER ac reg) = true
        /\ Windows.ConfigureWER ac reg1 = (reg1, true)
        /\ (reg1 !! Windows.WER_KEY) ≫= (fun vals => vals !! "DumpFolder")
           = Some (Windows.REG_SZ Windows.CRASH_SUBDIR)
        /\ (reg1 !! Windows.WER_KEY) ≫= (fun vals => vals !! "DumpType")
           = Some (Windows.REG_DWORD 2))
  /\ (forall pr sys,
        Linux.ConfigureCorePattern pr (fst (Linux.ConfigureCorePattern pr sys))
        = Linux.ConfigureCorePattern pr sys)
  /\ (forall pr sys,
        Linux.may_write_core_pattern pr = true ->
        Linux.cap_sys_resource pr = true ->
        let sys1 := fst (Linux.ConfigureCorePattern pr sys) in
        snd (Linux.ConfigureCorePattern pr sys) = true
        /\ Linux.ConfigureCorePattern pr sys1 = (sys1, true)
        /\ sys1 = Linux.mkSystem (Linux.CORE_PATTERN_VALUE +:+ newline)
                    Linux.RLIM_INFINITY Linux.RLIM_INFINITY).
Proof.
  split; [exact ConfigureWER_again|]. split; [|split; [exact ConfigureCorePattern_again|]].
  - intros ac reg Ho Hf Ht reg1.
    destruct (ConfigureWER_allowed ac reg Ho Hf Ht) as (Hok & Hfolder & Htype).
    split; [exact Hok|]. split; [|split; assumption].
    subst reg1. rewrite ConfigureWER_again.
    destruct (Windows.ConfigureWER ac reg) as [r ok]. cbn in *. now subst ok.
  - intros pr sys Hw Hc sys1. subst sys1.
    rewrite ConfigureCorePattern_again, (ConfigureCorePattern_allowed pr sys Hw Hc).
    repeat split.
Qed.

(** An administrator configures an empty registry twice. *)
Lemma configurator_idempotent_witness :
  let ac := Windows.mkAccess true (fun _ => true) in
  let reg1 := fst (Windows.ConfigureWER ac ∅) in
  snd (Windows.ConfigureWER ac ∅) = true
  /\ Windows.ConfigureWER ac reg1 = (reg1, true)
  /\ (reg1 !! Windows.WER_KEY) ≫= (fun vals => vals !! "DumpFolder")
     = Some (Windows.REG_SZ Windows.CRASH_SUBDIR)
  /\ (reg1 !! Windows.WER_KEY) ≫= (fun vals => vals !! "DumpType")
     = Some (Windows.REG_DWORD 2).
Proof.
  apply (proj1 (proj2 configurator_idempotent)); reflexivity.
Defined.

(** Without [CAP_SYS_RESOURCE] and with a finite hard limit the Linux
    configurator fails, the second time as the first. *)
Example ConfigureCorePattern_unprivileged :
  let pr := Linux.mkPrivileges true false in
  let sys := Linux.mkSystem "core" 0 1024 in
  Linux.ConfigureCorePattern pr sys
  = (Linux.mkSystem (Linux.CORE_PATTERN_VALUE +:+ newline) 0 1024, false)
  /\ Linux.ConfigureCorePattern pr (fst (Linux.ConfigureCorePattern pr sys))
     = (Linux.mkSystem (Linux.CORE_PATTERN_VALUE +:+ newline) 0 1024, false).
Proof. split; reflexivity. Qed.

(** ** The record file cannot be created (C10) *)

Lemma CreateCrashJSON_throws f exe p code d :
  Windows.dir_exists d = false -> Windows.create_directories_ok f = false ->
  Windows.CreateCrashJSON f exe p code d = (d, None).
Proof. intros Hd Hc. unfold Windows.CreateCrashJSON. now rewrite Hd, Hc. Qed.

Lemma CreateCrashJSON_fails f exe p code d :
  Windows.ofstream_opens f = false ->
  Windows.dir_exists d = true \/ Windows.create_directories_ok f = true ->
  snd (Windows.CreateCrashJSON f exe p code d) = Some EmptyString
  /\ Windows.files (fst (Windows.CreateCrashJSON f exe p code d)) = Windows.files d.
Proof.
  intros H Hdir. unfold Windows.CreateCrashJSON. rewrite H.
  destruct d as [exists_ fs]. cbn [Windows.dir_exists Windows.files] in *.
  destruct exists_, (Windows.create_directories_ok f), Hdir;
    try discriminate; split; reflexivity.
Qed.

Lemma create_fails_open_fails f :
  Windows.create_directories_ok f = false -> Windows.ofstream_opens f = false.
Proof.
  unfold Windows.create_directories_ok, Windows.ofstream_opens.
  now destruct (Windows.file_system f).
Qed.

(** C10, on the code. When the record file cannot be created because the
    crash directory is missing and cannot be made, [fs::create_directories]
    throws: [CreateCrashJSON] returns nothing, the exception leaves the
    filter before its assignments, and the process is left exactly as it
    was. No record is installed, and an agent that had seen no crash still
    answers [{ "crash": false }]. *)
Theorem filter_throws_without_directory (f : Windows.Fault) (a : Windows.Agent) :
  let exe := default "unknown" (Windows.ModuleFileName f) in
  let p := Windows.CurrentProcessId f in
  let code := Windows.ExceptionCode f in
  Windows.dir_exists (Windows.disk a) = false ->
  Windows.create_directories_ok f = false ->
  Windows.ofstream_opens f = false
  /\ Windows.CreateCrashJSON f exe p code (Windows.disk a) = (Windows.disk a, None)
  /\ Windows.MyUnhandledExceptionFilter f a = (a, None)
  /\ Windows.step a (Windows.Crash f) = a
  /\ (Windows.g_crashHappened (Windows.store a) = false ->
      Windows.response (Windows.store (Windows.step a (Windows.Crash f)))
      = "{ " +:+ dquote +:+ "crash" +:+ dquote +:+ ": false }" +:+ newline).
Proof.
  intros exe p code Hd Hc.
  pose proof (CreateCrashJSON_throws f exe p code (Windows.disk a) Hd Hc) as Hthrow.
  assert (Hfilter : Windows.MyUnhandledExceptionFilter f a = (a, None)).
  { unfold Windows.MyUnhandledExceptionFilter. fold exe p code. rewrite Hthrow.
    now destruct a. }
  split; [now apply create_fails_open_fails|]. split; [exact Hthrow|].
  split; [exact Hfilter|].
  cbn [Windows.step]. rewrite Hfilter. cbn [fst]. split; [reflexivity|].
  intros Hflag. unfold Windows.response. now rewrite Hflag.
Qed.

(** An access violation in process 1234 of a fresh agent while the share
    is not mounted. *)
Lemma filter_throws_without_directory_witness :
  let f := Windows.mkFault 0xC0000005 1234 (Some "C:\agent.exe") "20230601_120000"
             Windows.CannotCreateDirectory in
  let a := Windows.agent_init (Windows.mkDisk false ∅) None in
  Windows.MyUnhandledExceptionFilter f a = (a, None)
  /\ Windows.response (Windows.store (Windows.step a (Windows.Crash f)))
     = "{ " +:+ dquote +:+ "crash" +:+ dquote +:+ ": false }" +:+ newline.
Proof.
  intros f a.
  destruct (filter_throws_without_directory f a eq_refl eq_refl) as (_ & _ & Hf & _ & Hr).
  split; [exact Hf|]. apply Hr. reflexivity.
Defined.

(** X20. When the crash directory is there or can be made and the record
    file does not open, [CreateCrashJSON] returns the empty string and
    writes no file; the filter installs the record all the same, with both
    flags true, the executable path, the process id and the exception code
    it captured, and an empty [crashFile]; and the next response says
    [crash: true] and ends with ["file": ""]. *)
Theorem filter_installs_when_open_fails (f : Windows.Fault) (a : Windows.Agent) :
  let exe := default "unknown" (Windows.ModuleFileName f) in
  let p := Windows.CurrentProcessId f in
  let code := Windows.ExceptionCode f in
  let a' := fst (Windows.MyUnhandledExceptionFilter f a) in
  Windows.ofstream_opens f = false ->
  Windows.dir_exists (Windows.disk a) = true \/ Windows.create_directories_ok f = true ->
  snd (Windows.CreateCrashJSON f exe p code (Windows.disk a)) = Some EmptyString
  /\ Windows.files (Windows.disk a') = Windows.files (Windows.disk a)
  /\ Windows.store a' = Windows.mkStore true (Windows.mkCrashInfo true exe p code EmptyString)
  /\ Windows.response (Windows.store a')
     = "{ " +:+ dquote +:+ "crash" +:+ dquote +:+ ": true, "
         +:+ dquote +:+ "pid" +:+ dquote +:+ ": " +:+ to_string p +:+ ", "
         +:+ dquote +:+ "exe" +:+ dquote +:+ ": " +:+ dquote +:+ exe +:+ dquote +:+ ", "
         +:+ dquote +:+ "exception" +:+ dquote +:+ ": " +:+ dquote +:+ "0x" +:+ to_hex code
         +:+ dquote +:+ ", "
         +:+ dquote +:+ "file" +:+ dquote +:+ ": " +:+ dquote +:+ dquote +:+ " }" +:+ newline.
Proof.
  intros exe p code a' Hopen Hdir.
  destruct (CreateCrashJSON_fails f exe p code (Windows.disk a) Hopen Hdir) as [Hs Hfiles].
  split; [exact Hs|].
  assert (Hstore : Windows.store a'
                   = Windows.mkStore true (Windows.mkCrashInfo true exe p code EmptyString)).
  { subst a'. rewrite windows_filter_store. fold exe p code. now rewrite Hs. }
  split; [|split; [exact Hstore|now rewrite Hstore]].
  subst a'. unfold Windows.MyUnhandledExceptionFilter. fold exe p code.
  destruct (Windows.CreateCrashJSON f exe p code (Windows.disk a)) as [d [j|]];
    [|discriminate Hs].
  cbn in Hfiles. now destruct (Windows.g_originalFilter a).
Qed.

(** An access violation in process 1234 while the share is mounted
    read-only. *)
Lemma filter_installs_when_open_fails_witness :
  let f := Windows.mkFault 0xC0000005 1234 (Some "C:\agent.exe") "20230601_120000"
             Windows.CannotOpenFile in
  let a := Windows.agent_init (Windows.mkDisk false ∅) None in
  Windows.response (Windows.store (fst (Windows.MyUnhandledExceptionFilter f a)))
  = "{ " +:+ dquote +:+ "crash" +:+ dquote +:+ ": true, "
      +:+ dquote +:+ "pid" +:+ dquote +:+ ": 1234, "
      +:+ dquote +:+ "exe" +:+ dquote +:+ ": " +:+ dquote +:+ "C:\agent.exe" +:+ dquote +:+ ", "
      +:+ dquote +:+ "exception" +:+ dquote +:+ ": " +:+ dquote +:+ "0xc0000005"
      +:+ dquote +:+ ", "
      +:+ dquote +:+ "file" +:+ dquote +:+ ": " +:+ dquote +:+ dquote +:+ " }" +:+ newline.
Proof.
  cbv zeta.
  apply (filter_installs_when_open_fails
           (Windows.mkFault 0xC0000005 1234 (Some "C:\agent.exe") "20230601_120000"
              Windows.CannotOpenFile)
           (Windows.agent_init (Windows.mkDisk false ∅) None)).
  - reflexivity.
  - right. reflexivity.
Defined.

(** ** A reader never sees half an update (C2) *)

Import Interleaving.

Lemma inv_start s0 exe p code file : inv s0 exe p code file (start s0).
Proof. repeat split. Qed.

Lemma inv_detector s0 exe p code file σ :
  inv s0 exe p code file σ -> inv s0 exe p code file (detector_step exe p code file σ).
Proof.
  destruct σ as [sh ow d r c snap].
  unfold inv, reader_inv, crash_ok, observed, get. cbn.
  intros (-> & -> & Hexcl & Hrd).
  destruct d, r; cbn in *; try discriminate Hexcl; intuition (try congruence).
Qed.

Lemma inv_responder s0 exe p code file σ :
  inv s0 exe p code file σ -> inv s0 exe p code file (responder_step σ).
Proof.
  destruct σ as [sh ow d r c snap].
  unfold inv, reader_inv, crash_ok, observed, get. cbn.
  intros (-> & -> & Hexcl & Hrd).
  destruct d, r; cbn in *; try discriminate Hexcl;
    try match goal with
        | |- context [if c then _ else _] =>
            destruct c; [destruct (Windows.haveCrash (Windows.g_lastCrash _)) eqn:Hh|]
        end; cbn in *; intuition (try congruence);
    destruct s0 as [fl [hv e1 p1 c1 f1]]; cbn in *; subst; cbn; auto.
Qed.

Lemma inv_run s0 exe p code file sched : forall σ,
  inv s0 exe p code file σ -> inv s0 exe p code file (run exe p code file sched σ).
Proof.
  induction sched as [|t sched IH]; intros σ H; [exact H|].
  cbn [run fold_left]. apply IH.
  destruct t; [now apply inv_detector | now apply inv_responder].
Qed.

Lemma response_of_get a b : get a = get b -> Windows.response a = Windows.response b.
Proof.
  unfold get, Windows.response.
  destruct (Windows.g_crashHappened a && _), (Windows.g_crashHappened b && _);
    intros H; try discriminate H; [|reflexivity].
  now injection H as ->.
Qed.

(** Wherever the two threads are, nine more steps of each finish both. *)
Lemma run_completes s0 exe p code file σ :
  inv s0 exe p code file σ ->
  r_at (run exe p code file (repeat Detector 9 ++ repeat Responder 9) σ) = R_done.
Proof.
  destruct σ as [sh ow d r c snap]. unfold inv. cbn.
  intros (-> & -> & Hexcl & _).
  destruct s0 as [fl [hv e1 p1 c1 f1]].
  destruct d, r; try discriminate Hexcl; destruct fl, hv, c; vm_compute; reflexivity.
Qed.

Lemma run_app exe p code file a b σ :
  run exe p code file (a ++ b) σ = run exe p code file b (run exe p code file a σ).
Proof. apply fold_left_app. Qed.

(** C2. The filter writes its six values one at a time under the lock
    while the server loads the flag, takes the lock and copies the fields
    one at a time. Whatever the order of their steps, what the server has
    got when it is done is what a reader makes of the store as it was
    before the filter ran, or of the store as it is once the filter is
    through: never some fields of the one and some of the other; the
    answer it sends is the response to one of these two stores. And every
    schedule can be continued so that the server does finish. *)
Theorem get_is_consistent (s0 : Windows.Store) (exe : string) (p code : Z) (file : string)
    (sched : list thread) :
  let σ := run exe p code file sched (start s0) in
  let s1 := Windows.install exe p code file s0 in
  (r_at σ = R_done ->
     (observed σ = get s0 \/ observed σ = get s1)
     /\ (answer σ = Windows.response s0 \/ answer σ = Windows.response s1))
  /\ r_at (run exe p code file (sched ++ repeat Detector 9 ++ repeat Responder 9) (start s0))
     = R_done.
Proof.
  intros σ s1.
  pose proof (inv_run s0 exe p code file sched (start s0) (inv_start s0 exe p code file)) as H.
  fold σ in H. split.
  - intros Hdone. destruct H as (_ & _ & _ & Hrd). unfold reader_inv in Hrd.
    rewrite Hdone in Hrd. split; [exact Hrd|].
    unfold answer. destruct Hrd as [Hrd|Hrd]; [left|right]; apply response_of_get; exact Hrd.
  - rewrite run_app. fold σ. clearbody σ. revert H. apply run_completes.
Qed.

(** The server loads the flag and the filter takes the lock first; the
    server waits, and then reads the whole new record. *)
Lemma get_is_consistent_witness :
  let s1 := Windows.install "C:\agent.exe" 1234 0xC0000005 "Z:\qemu\crash.json" Windows.store_init in
  let sched := [Detector; Detector; Responder; Responder; Responder]
                 ++ repeat Detector 7 ++ repeat Responder 7 in
  let σ := run "C:\agent.exe" 1234 0xC0000005 "Z:\qemu\crash.json" sched
             (start Windows.store_init) in
  r_at σ = R_done
  /\ (observed σ = get Windows.store_init \/ observed σ = get s1).
Proof.
  cbv zeta. split; [reflexivity|].
  apply (get_is_consistent Windows.store_init "C:\agent.exe" 1234 0xC0000005
           "Z:\qemu\crash.json"
           ([Detector; Detector; Responder; Responder; Responder]
              ++ repeat Detector 7 ++ repeat Responder 7)).
  reflexivity.
Defined.

Example reader_after_flag_waits :
  observed
    (run "C:\agent.exe" 1234 0xC0000005 "Z:\qemu\crash.json"
       ([Detector; Detector; Responder; Responder; Responder]
          ++ repeat Detector 7 ++ repeat Responder 7)
       (start Windows.store_init))
  = Some (Windows.mkCrashInfo true "C:\agent.exe" 1234 0xC0000005 "Z:\qemu\crash.json").
Proof. reflexivity. Qed.

Example reader_before_flag_sees_nothing :
  observed
    (run "C:\agent.exe" 1234 0xC0000005 "Z:\qemu\crash.json"
       ([Responder; Detector; Detector; Detector; Responder]
          ++ repeat Detector 7 ++ repeat Responder 7)
       (start Windows.store_init))
  = None.
Proof. reflexivity. Qed.

(* ================================================================== *)
(** * More of the two agents *)
(* ================================================================== *)


(** ** Rendered numbers *)

Lemma digit_char_dec d : 0 <= d < 10 -> is_dec_digit (digit_char d) = true.
Proof.
  intros H.
  assert (Hd : In d [0;1;2;3;4;5;6;7;8;9]) by (cbn; lia).
  cbn in Hd. repeat (destruct Hd as [<-|Hd]; [reflexivity|]). destruct Hd.
Qed.

Lemma digit_char_hex d : 0 <= d < 16 -> is_hex_lower (digit_char d) = true.
Proof.
  intros H.
  assert (Hd : In d [0;1;2;3;4;5;6;7;8;9;10;11;12;13;14;15]) by (cbn; lia).
  cbn in Hd. repeat (destruct Hd as [<-|Hd]; [reflexivity|]). destruct Hd.
Qed.

Lemma digit_char_nonzero d :
  1 <= d < 16 -> Ascii.eqb (digit_char d) "0"%char = false.
Proof.
  intros H.
  assert (Hd : In d [1;2;3;4;5;6;7;8;9;10;11;12;13;14;15]) by (cbn; lia).
  cbn in Hd. repeat (destruct Hd as [<-|Hd]; [reflexivity|]). destruct Hd.
Qed.

Lemma render_digits_chars (ok : ascii -> bool) base fuel : forall n acc,
  0 < base -> 0 <= n ->
  (forall d, 0 <= d < base -> ok (digit_char d) = true) ->
  all_chars ok acc = true ->
  all_chars ok (render_digits fuel base n acc) = true.
Proof.
  induction fuel as [|fuel IH]; intros n acc Hb Hn Hok Hacc; cbn [render_digits]; [exact Hacc|].
  assert (Hacc' : all_chars ok (String (digit_char (n mod base)) acc) = true).
  { cbn [all_chars]. rewrite Hok, Hacc; [reflexivity|]. apply Z.mod_pos_bound. lia. }
  destruct (n / base =? 0); [exact Hacc'|].
  apply IH; auto. apply Z.div_pos; lia.
Qed.

Lemma render_digits_head base fuel : forall n acc,
  2 <= base <= 16 -> 0 < n < base ^ Z.of_nat fuel ->
  no_leading_zero (render_digits fuel base n acc) = true.
Proof.
  induction fuel as [|fuel IH]; intros n acc Hb Hn.
  - cbn in Hn. lia.
  - cbn [render_digits].
    destruct (Z.eqb_spec (n / base) 0) as [Hq|Hq].
    + cbn [no_leading_zero]. rewrite digit_char_nonzero; [reflexivity|].
      pose proof (Z.div_mod n base). pose proof (Z.mod_pos_bound n base). lia.
    + apply IH; [exact Hb|].
      rewrite Nat2Z.inj_succ, Z.pow_succ_r in Hn by lia.
      assert (0 <= n / base) by (apply Z.div_pos; lia).
      split; [lia|apply Z.div_lt_upper_bound; lia].
Qed.

Lemma render_fuel_enough base n :
  2 <= base -> 0 <= n -> n < base ^ Z.of_nat (S (Z.to_nat (Z.log2 n))).
Proof.
  intros Hb Hn.
  rewrite Nat2Z.inj_succ, Z2Nat.id by apply Z.log2_nonneg.
  destruct (Z.eq_dec n 0) as [->|Hz]; [cbn; lia|].
  pose proof (Z.log2_spec n ltac:(lia)) as [_ Hlt].
  pose proof (Z.pow_le_mono_l 2 base (Z.succ (Z.log2 n)) ltac:(lia)). lia.
Qed.

Lemma render_digits_nonempty fuel base n acc :
  render_digits (S fuel) base n acc <> EmptyString.
Proof.
  cbn [render_digits]. destruct (n / base =? 0); [discriminate|].
  rewrite render_digits_acc. destruct (render_digits _ _ _ _); discriminate.
Qed.

Lemma to_string_digits n : 0 <= n -> all_chars is_dec_digit (to_string n) = true.
Proof.
  intros H. unfold to_string, render_unsigned.
  apply render_digits_chars; try lia; [|reflexivity].
  intros d Hd. now apply digit_char_dec.
Qed.

Lemma to_string_inj a b : 0 <= a -> 0 <= b -> to_string a = to_string b -> a = b.
Proof.
  intros Ha Hb H. rewrite <- (to_string_value a Ha), <- (to_string_value b Hb).
  now rewrite H.
Qed.

(** ** [std::stoi] on a rendered number *)

Lemma digit_val_dec c : is_dec_digit c = true -> digit_val c = Some (digit_of_char c).
Proof.
  unfold is_dec_digit, digit_val, digit_of_char. intros H. rewrite H.
  apply andb_prop in H as [_ H]. apply Z.leb_le in H.
  destruct (Z.ltb_spec (Z.of_N (N_of_ascii c)) 58); [reflexivity|lia].
Qed.

Lemma digit_val_none c : is_dec_digit c = false -> digit_val c = None.
Proof. unfold is_dec_digit, digit_val. now intros ->. Qed.

Lemma is_space_digit c : is_dec_digit c = true -> is_space c = false.
Proof.
  unfold is_dec_digit, is_space. intros H.
  apply andb_prop in H as [H1 H2]. apply Z.leb_le in H1, H2.
  destruct (Z.eqb_spec (Z.of_N (N_of_ascii c)) 32); [lia|].
  destruct (Z.leb_spec (Z.of_N (N_of_ascii c)) 13); [lia|].
  now rewrite andb_false_r.
Qed.

Lemma read_sign_digit c s :
  is_dec_digit c = true -> read_sign (String c s) = (false, String c s).
Proof.
  destruct c as [b0 b1 b2 b3 b4 b5 b6 b7].
  destruct b0, b1, b2, b3, b4, b5, b6, b7; intros H; try discriminate H; reflexivity.
Qed.

Lemma read_digits_number s : forall rest a,
  all_chars is_dec_digit s = true -> ends_number rest = true ->
  read_digits (s +:+ rest) (Some a) = Some (value_from 10 s a).
Proof.
  induction s as [|c s IH]; intros rest a Hs Hrest.
  - change (EmptyString +:+ rest) with rest. cbn [value_from].
    destruct rest as [|c rest]; [reflexivity|].
    cbn [ends_number] in Hrest. apply negb_true_iff in Hrest.
    cbn [read_digits]. now rewrite (digit_val_none c Hrest).
  - cbn [all_chars] in Hs. apply andb_prop in Hs as [Hc Hs].
    rewrite append_cons. cbn [read_digits value_from].
    rewrite (digit_val_dec c Hc). change (default 0 (Some a)) with a.
    rewrite (IH rest _ Hs Hrest). f_equal. f_equal. lia.
Qed.

Lemma stoi_number n rest :
  0 <= n -> ends_number rest = true ->
  stoi (to_string n +:+ rest) = if n <=? INT_MAX then Some n else None.
Proof.
  intros Hn Hrest.
  pose proof (to_string_digits n Hn) as Hd.
  pose proof (to_string_value n Hn) as Hv.
  destruct (to_string n) as [|c s] eqn:E.
  { exfalso. revert E. apply render_digits_nonempty. }
  cbn [all_chars] in Hd. apply andb_prop in Hd as [Hc Hs].
  unfold stoi. rewrite append_cons. cbn [skip_space].
  rewrite (is_space_digit c Hc), (read_sign_digit c _ Hc).
  cbn [read_digits]. rewrite (digit_val_dec c Hc). change (default 0 None) with 0.
  rewrite (read_digits_number s rest _ Hs Hrest).
  cbn [value_from] in Hv. replace (10 * 0 + digit_of_char c) with (0 * 10 + digit_of_char c) by lia.
  rewrite Hv.
  destruct (Z.leb_spec INT_MIN n) as [_|H]; [reflexivity|unfold INT_MIN in H; lia].
Qed.

(** ** [parsePID] on the names the kernel gives *)

Lemma stoi_range s v : stoi s = Some v -> INT_MIN <= v <= INT_MAX.
Proof.
  unfold stoi. destruct (read_sign (skip_space s)) as [neg body].
  destruct (read_digits body None) as [v0|]; [|discriminate].
  cbv zeta.
  destruct (Z.leb_spec INT_MIN (if neg then - v0 else v0)); cbn [andb]; [|discriminate].
  destruct (Z.leb_spec (if neg then - v0 else v0) INT_MAX); [|discriminate].
  intros [= <-]. lia.
Qed.

Lemma append_nil_r (s : string) : s +:+ EmptyString = s.
Proof.
  induction s as [|c s IH]; [reflexivity|]. rewrite append_cons. now rewrite IH.
Qed.

Lemma parsePID_number (n : Z) (rest : string) :
  0 <= n -> ends_number rest = true ->
  Linux.parsePID ("core." +:+ to_string n +:+ rest) = if n <=? INT_MAX then n else -1.
Proof.
  intros Hn Hrest. unfold Linux.parsePID.
  change (starts_with "core." ("core." +:+ to_string n +:+ rest)) with true.
  change (substr_from (String.length "core.") ("core." +:+ to_string n +:+ rest))
    with (to_string n +:+ rest).
  cbv iota. rewrite (stoi_number n rest Hn Hrest).
  now destruct (n <=? INT_MAX).
Qed.

Lemma parsePID_plain (n : Z) :
  0 <= n <= INT_MAX -> Linux.parsePID ("core." +:+ to_string n) = n.
Proof.
  intros Hn. rewrite <- (append_nil_r (to_string n)).
  rewrite parsePID_number by (lia || reflexivity).
  destruct (Z.leb_spec n INT_MAX); [reflexivity|lia].
Qed.

(** X1. [parsePID] reads the process id back from the name [core.<pid>]
    the kernel writes, for every pid an [int] holds, and also when
    something that does not begin with a digit follows the number. *)
Theorem parsePID_reads_pid (n : Z) (rest : string) :
  0 <= n <= INT_MAX -> ends_number rest = true ->
  Linux.parsePID ("core." +:+ to_string n +:+ rest) = n.
Proof.
  intros Hn Hrest. rewrite parsePID_number by (lia || assumption).
  destruct (Z.leb_spec n INT_MAX); [reflexivity|lia].
Qed.

Lemma parsePID_reads_pid_witness :
  Linux.parsePID ("core." +:+ to_string 4242 +:+ ".gz") = 4242.
Proof.
  apply parsePID_reads_pid; [unfold INT_MAX; lia|reflexivity].
Defined.

(** X2. A number after [core.] that an [int] cannot hold makes
    [std::stoi] throw: [parsePID] returns -1, as for a name without a
    number. *)
Theorem parsePID_out_of_range (n : Z) (rest : string) :
  INT_MAX < n -> ends_number rest = true ->
  Linux.parsePID ("core." +:+ to_string n +:+ rest) = -1.
Proof.
  intros Hn Hrest.
  rewrite parsePID_number by (unfold INT_MAX in Hn; lia || assumption).
  destruct (Z.leb_spec n INT_MAX); [lia|reflexivity].
Qed.

Lemma parsePID_out_of_range_witness :
  Linux.parsePID ("core." +:+ to_string 2147483648 +:+ EmptyString) = -1.
Proof.
  apply parsePID_out_of_range; [unfold INT_MAX; lia|reflexivity].
Defined.

Lemma parsePID_range name : INT_MIN <= Linux.parsePID name <= INT_MAX.
Proof.
  destruct (parsePID_cases name) as [(v & Hs & ->)| ->].
  - exact (stoi_range _ _ Hs).
  - unfold INT_MIN, INT_MAX. lia.
Qed.

Lemma to_ulong_int z :
  INT_MIN <= z <= INT_MAX ->
  (0 <= z /\ to_ulong z = z) \/ (z < 0 /\ to_ulong z = 2 ^ 64 + z).
Proof.
  unfold INT_MIN, INT_MAX, to_ulong. intros H.
  destruct (Z.lt_ge_cases z 0); [right|left]; (split; [lia|]).
  - symmetry. apply (Z.mod_unique_pos _ _ (-1)); lia.
  - apply Z.mod_small. lia.
Qed.

(** X3. Whatever the file is called, [parsePID] returns an [int], and -1
    when the name does not begin with [core.]; so the [unsigned long] the
    watcher stores is that number when it is not negative and 2^64 plus
    it when it is: never a value between 2^31 and 2^64 - 2^31 - 1. *)
Theorem parsePID_is_int (name : string) :
  INT_MIN <= Linux.parsePID name <= INT_MAX
  /\ (starts_with "core." name = false -> Linux.parsePID name = -1)
  /\ ((0 <= Linux.parsePID name
       /\ to_ulong (Linux.parsePID name) = Linux.parsePID name)
      \/ (Linux.parsePID name < 0
          /\ to_ulong (Linux.parsePID name) = 2 ^ 64 + Linux.parsePID name)).
Proof.
  split; [apply parsePID_range|]. split.
  - intros H. unfold Linux.parsePID. now rewrite H.
  - apply to_ulong_int, parsePID_range.
Qed.

Lemma parsePID_is_int_witness : Linux.parsePID "dump.17" = -1.
Proof. apply (parsePID_is_int "dump.17"). reflexivity. Defined.


(** ** The watcher, cycle by cycle *)

Lemma filter_none_eligible entries :
  (forall x, In x entries -> Linux.eligible x = false) ->
  List.filter Linux.eligible entries = [].
Proof.
  induction entries as [|e entries IH]; intros H; [reflexivity|].
  cbn [List.filter]. rewrite (H e (or_introl eq_refl)).
  apply IH. intros x Hx. apply H. now right.
Qed.

(** X4. A cycle that finds no directory, or a directory without a regular
    file named [core.*], changes nothing: the store and the remembered
    path stay as they are and nothing is written. *)
Theorem watch_cycle_nothing_to_report (listing : option (list Linux.dirent)) (w : Linux.Watcher) :
  (forall entries x, listing = Some entries -> In x entries -> Linux.eligible x = false) ->
  Linux.watch_cycle_log listing w = (w, None).
Proof.
  intros H. destruct listing as [entries|]; [|reflexivity].
  unfold Linux.watch_cycle_log.
  replace (Linux.scan entries) with (Linux.scan []); [reflexivity|].
  unfold Linux.scan. rewrite (scan_ignores_skipped entries).
  rewrite filter_none_eligible; [reflexivity|]. intros x Hx. now apply (H entries).
Qed.

Lemma watch_cycle_nothing_to_report_witness :
  let w := Linux.watch_cycle (Some [Linux.mkDirent "core.7" true 5]) Linux.watcher_init in
  Linux.watch_cycle_log
    (Some [Linux.mkDirent "core.9" false 9; Linux.mkDirent "notes.txt" true 9]) w
  = (w, None).
Proof.
  cbv zeta. apply watch_cycle_nothing_to_report.
  intros entries x [= <-] [<-|[<-|[]]]; reflexivity.
Defined.

Lemma scan_unique_newest entries e :
  In e entries -> Linux.eligible e = true -> Linux.file_time_min < Linux.d_mtime e ->
  (forall x, In x entries -> Linux.eligible x = true ->
             x = e \/ Linux.d_mtime x < Linux.d_mtime e) ->
  Linux.scan entries = (Linux.d_mtime e, Linux.entry_path e).
Proof.
  intros Hin El Hmin Hothers.
  pose proof (scan_inv_scan entries) as H.
  destruct (Linux.scan entries) as [t np]. destruct H as (Hmax & Hnone & Hsome).
  destruct (Linux.path_empty np) eqn:Hp.
  - specialize (Hmax e Hin El). rewrite (Hnone eq_refl) in Hmax. lia.
  - destruct (Hsome eq_refl) as (b & c & a & -> & -> & -> & Elc & _).
    specialize (Hmax e Hin El).
    destruct (Hothers c) as [->|Hlt]; [apply in_or_app; right; now left|exact Elc| |lia].
    reflexivity.
Qed.

(** X5. When the directory holds a regular file [core.<pid>] that is newer
    than every other core file in it, and that is not the one reported
    last, the cycle installs exactly its record: both flags true,
    ["unknown"], that pid, the placeholder code and the path of the file,
    which becomes the remembered path. *)
Theorem watch_cycle_reports_newest
    (entries : list Linux.dirent) (e : Linux.dirent) (n : Z) (w : Linux.Watcher) :
  let file := Linux.CRASH_DIR +:+ "/" +:+ Linux.d_name e in
  In e entries ->
  Linux.d_regular e = true ->
  Linux.d_name e = "core." +:+ to_string n ->
  0 <= n <= INT_MAX ->
  Linux.file_time_min < Linux.d_mtime e ->
  (forall x, In x entries -> Linux.eligible x = true ->
             x = e \/ Linux.d_mtime x < Linux.d_mtime e) ->
  file <> Linux.lastCore w ->
  Linux.watch_cycle (Some entries) w
  = Linux.mkWatcher file
      (Linux.mkStore true (Linux.mkCrashInfo true "unknown" n 0xC0000005 file)).
Proof.
  intros file Hin Hreg Hname Hn Hmin Hothers Hnew.
  assert (El : Linux.eligible e = true).
  { unfold Linux.eligible. now rewrite Hreg, Hname. }
  pose proof (scan_unique_newest entries e Hin El Hmin Hothers) as Hscan.
  unfold Linux.watch_cycle. rewrite watch_cycle_log_new.
  - rewrite Hscan. cbn [fst snd]. unfold Linux.filename, Linux.entry_path. cbn [Linux.p_name].
    replace (Linux.parsePID (Linux.d_name e)) with n.
    + replace (to_ulong n) with n; [reflexivity|].
      unfold to_ulong. symmetry. apply Z.mod_small. unfold INT_MAX in Hn. lia.
    + rewrite Hname. symmetry. now apply parsePID_plain.
  - now rewrite Hscan.
  - now rewrite Hscan.
Qed.

Lemma watch_cycle_reports_newest_witness :
  Linux.watch_cycle
    (Some [Linux.mkDirent "core.17" true 100;
           Linux.mkDirent ("core." +:+ to_string 4242) true 200;
           Linux.mkDirent "core" true 300])
    Linux.watcher_init
  = Linux.mkWatcher (Linux.CRASH_DIR +:+ "/" +:+ "core." +:+ to_string 4242)
      (Linux.mkStore true
         (Linux.mkCrashInfo true "unknown" 4242 0xC0000005
            (Linux.CRASH_DIR +:+ "/" +:+ "core." +:+ to_string 4242))).
Proof.
  apply (watch_cycle_reports_newest _ (Linux.mkDirent ("core." +:+ to_string 4242) true 200)).
  - right. left. reflexivity.
  - reflexivity.
  - reflexivity.
  - unfold INT_MAX. lia.
  - reflexivity.
  - intros x [<-|[<-|[<-|[]]]] Hx; cbn; try discriminate Hx; (right; lia) || (left; reflexivity).
  - vm_compute. discriminate.
Defined.

(** X6. The order in which the directory is listed does not matter when
    one core file is newer than all the others: the scan of any
    rearrangement of the entries returns that file. When the two newest
    have the same time it does matter: of two such files the scan keeps
    the one listed first. *)
Theorem scan_order (entries entries' : list Linux.dirent) (e : Linux.dirent) :
  (Permutation entries entries' ->
   In e entries -> Linux.eligible e = true -> Linux.file_time_min < Linux.d_mtime e ->
   (forall x, In x entries -> Linux.eligible x = true ->
              x = e \/ Linux.d_mtime x < Linux.d_mtime e) ->
   Linux.scan entries' = Linux.scan entries
   /\ Linux.scan entries = (Linux.d_mtime e, Linux.entry_path e))
  /\ (forall a b,
        Linux.eligible a = true -> Linux.eligible b = true ->
        Linux.file_time_min < Linux.d_mtime a -> Linux.d_mtime a = Linux.d_mtime b ->
        snd (Linux.scan [a; b]) = Linux.entry_path a
        /\ snd (Linux.scan [b; a]) = Linux.entry_path b).
Proof.
  split.
  - intros Hperm Hin El Hmin Hothers.
    rewrite (scan_unique_newest entries e Hin El Hmin Hothers).
    split; [|reflexivity].
    apply scan_unique_newest; try assumption.
    + now apply (Permutation_in _ Hperm).
    + intros x Hx. apply Hothers. now apply (Permutation_in _ (Permutation_sym Hperm)).
  - intros a b Ea Eb Hmin Heq. unfold Linux.scan. cbn [fold_left].
    rewrite (scan_step_take _ _ a Ea), (scan_step_take _ _ b Eb).
    destruct (Z.ltb_spec Linux.file_time_min (Linux.d_mtime a)); [|lia].
    destruct (Z.ltb_spec Linux.file_time_min (Linux.d_mtime b)); [|lia].
    rewrite (scan_step_take _ _ a Ea), (scan_step_take _ _ b Eb).
    rewrite Heq, Z.ltb_irrefl. split; reflexivity.
Qed.

Lemma scan_order_witness :
  let a := Linux.mkDirent "core.1" true 5 in
  let b := Linux.mkDirent "core.2" true 9 in
  let c := Linux.mkDirent "README" true 20 in
  Linux.scan [c; b; a] = Linux.scan [a; b; c]
  /\ Linux.scan [a; b; c] = (9, Linux.entry_path b).
Proof.
  intros a b c.
  apply (proj1 (scan_order [a; b; c] [c; b; a] b)).
  - apply Permutation_rev.
  - right. left. reflexivity.
  - reflexivity.
  - reflexivity.
  - intros x [<-|[<-|[<-|[]]]] Hx; cbn; try discriminate Hx; (right; lia) || (left; reflexivity).
Defined.

(** X7. A cycle changes the watcher's state exactly when it writes its
    line to [std::cerr]; the line then names the file and the pid that
    are in the store after the cycle, and the file is the path the
    watcher remembers. *)
Theorem watch_cycle_logs_what_it_installs (listing : option (list Linux.dirent))
    (w : Linux.Watcher) :
  let w' := Linux.watch_cycle listing w in
  (snd (Linux.watch_cycle_log listing w) = None <-> w' = w)
  /\ (forall line,
        snd (Linux.watch_cycle_log listing w) = Some line ->
        line = Linux.detected_line (Linux.crashFile (Linux.g_lastCrash (Linux.store w')))
                 (Linux.pid (Linux.g_lastCrash (Linux.store w')))
        /\ Linux.lastCore w' = Linux.crashFile (Linux.g_lastCrash (Linux.store w'))
        /\ Linux.lastCore w' <> Linux.lastCore w).
Proof.
  unfold Linux.watch_cycle, Linux.watch_cycle_log.
  destruct listing as [entries|]; [|cbn; split; [tauto|discriminate]].
  destruct (Linux.scan entries) as [t np].
  destruct (negb (Linux.path_empty np)); [|cbn; split; [tauto|discriminate]].
  destruct (String.eqb_spec (Linux.path_string np) (Linux.lastCore w)) as [He|Hne];
    cbn; [split; [tauto|discriminate]|].
  split.
  - split; [discriminate|]. intros H. exfalso. apply Hne.
    rewrite <- H. reflexivity.
  - intros line [= <-]. repeat split. exact Hne.
Qed.

Lemma watch_cycle_logs_what_it_installs_witness :
  let listing := Some [Linux.mkDirent "core.7" true 5] in
  snd (Linux.watch_cycle_log listing Linux.watcher_init)
  = Some (Linux.detected_line "/mnt/virtfs/fawkes/crashes/core.7" 7)
  /\ Linux.lastCore (Linux.watch_cycle listing Linux.watcher_init)
     = Linux.crashFile
         (Linux.g_lastCrash (Linux.store (Linux.watch_cycle listing Linux.watcher_init))).
Proof.
  cbv zeta. split; [reflexivity|].
  apply (proj2 (watch_cycle_logs_what_it_installs
                  (Some [Linux.mkDirent "core.7" true 5]) Linux.watcher_init)
           (Linux.detected_line "/mnt/virtfs/fawkes/crashes/core.7" 7)).
  reflexivity.
Defined.

(** ** What the watcher keeps true *)

Lemma starts_with_append a : forall b s,
  starts_with (a +:+ b) (a +:+ s) = starts_with b s.
Proof.
  induction a as [|c a IH]; intros b s; [reflexivity|].
  rewrite !append_cons. cbn [starts_with]. now rewrite Ascii.eqb_refl.
Qed.

Lemma watch_cycle_installs listing w :
  Linux.watch_cycle listing w = w
  \/ exists e,
       Linux.eligible e = true
       /\ Linux.watch_cycle listing w
          = Linux.mkWatcher (Linux.path_string (Linux.entry_path e))
              (Linux.install (to_ulong (Linux.parsePID (Linux.d_name e)))
                 (Linux.path_string (Linux.entry_path e)) (Linux.store w)).
Proof.
  unfold Linux.watch_cycle, Linux.watch_cycle_log.
  destruct listing as [entries|]; [|now left].
  pose proof (scan_inv_scan entries) as H.
  destruct (Linux.scan entries) as [t np]. destruct H as (_ & _ & Hsome).
  destruct (Linux.path_empty np) eqn:Hp; [now left|]. cbn [negb].
  destruct (negb _); [|now left].
  destruct (Hsome eq_refl) as (b & e & a & _ & -> & _ & El & _).
  right. exists e. split; [exact El|reflexivity].
Qed.

Lemma watcher_ok_cycle listing w :
  Linux.watcher_ok w -> Linux.watcher_ok (Linux.watch_cycle listing w).
Proof.
  intros H. destruct (watch_cycle_installs listing w) as [-> | (e & El & ->)]; [exact H|].
  unfold Linux.watcher_ok. cbn.
  repeat split.
  - destruct (to_ulong_int _ (parsePID_range (Linux.d_name e))) as [[H0 ->]|[H0 ->]].
    + left. pose proof (parsePID_range (Linux.d_name e)). lia.
    + right. pose proof (parsePID_range (Linux.d_name e)). lia.
  - unfold Linux.eligible in El. apply andb_prop in El as [_ El].
    change (starts_with ((Linux.CRASH_DIR +:+ "/") +:+ "core.")
              ((Linux.CRASH_DIR +:+ "/") +:+ Linux.d_name e) = true).
    now rewrite (starts_with_append (Linux.CRASH_DIR +:+ "/") "core." (Linux.d_name e)).
Qed.

(** X8. Whatever directories the watcher finds and whenever clients ask,
    the store is either untouched, with no path remembered, or holds a
    complete record: both flags true, ["unknown"], the placeholder code,
    as file the path remembered as last seen, which lies in the crash
    directory and begins with [core.], and a pid that is an [int]
    converted to [unsigned long]. *)
Theorem watcher_keeps_store_consistent (evs : list Linux.event) :
  Linux.watcher_ok (Linux.run evs Linux.watcher_init).
Proof.
  assert (H : forall w, Linux.watcher_ok w -> Linux.watcher_ok (Linux.run evs w)).
  { induction evs as [|ev evs IH]; intros w Hw; [exact Hw|].
    cbn [Linux.run fold_left]. apply IH.
    destruct ev as [listing|]; [now apply watcher_ok_cycle|exact Hw]. }
  apply H. split; reflexivity.
Qed.


(** ** After a crash was installed *)







(** ** What the configurators report *)

(** X10. [ConfigureWER] returns true exactly when the key could be opened
    and [DumpFolder] could be set: the result of setting [DumpType] is not
    looked at. When that last call fails, the function still returns true
    and [DumpType] is what it was before, absent if it was absent. When
    the key cannot be opened the registry is left as it was. *)
Theorem ConfigureWER_result ac (reg : gmap string (gmap string Windows.reg_data)) :
  snd (Windows.ConfigureWER ac reg)
  = Windows.may_open_key ac && Windows.may_set_value ac "DumpFolder"
  /\ (Windows.may_open_key ac = false -> fst (Windows.ConfigureWER ac reg) = reg)
  /\ (Windows.may_open_key ac = true ->
      Windows.may_set_value ac "DumpFolder" = true ->
      Windows.may_set_value ac "DumpType" = false ->
      snd (Windows.ConfigureWER ac reg) = true
      /\ (fst (Windows.ConfigureWER ac reg) !! Windows.WER_KEY)
           ≫= (fun vals => vals !! "DumpFolder")
         = Some (Windows.REG_SZ Windows.CRASH_SUBDIR)
      /\ (fst (Windows.ConfigureWER ac reg) !! Windows.WER_KEY)
           ≫= (fun vals => vals !! "DumpType")
         = (reg !! Windows.WER_KEY) ≫= (fun vals => vals !! "DumpType")).
Proof.
  unfold Windows.ConfigureWER, Windows.RegCreateKeyExA, Windows.RegSetValueExA.
  destruct (Windows.may_open_key ac) eqn:Ho.
  - destruct (Windows.may_set_value ac "DumpFolder") eqn:Hf;
    destruct (Windows.may_set_value ac "DumpType") eqn:Ht;
    destruct (reg !! Windows.WER_KEY) as [vals|] eqn:Hk;
      cbn; rewrite ?Hf, ?Ht; cbn; repeat split; try discriminate;
      intros; cbn; simplify_map_eq; cbn; simplify_map_eq; try rewrite Hk; reflexivity.
  - cbn. repeat split; discriminate.
Qed.

Lemma ConfigureWER_result_witness :
  let ac := Windows.mkAccess true (fun n => bool_decide (n = "DumpFolder")) in
  let reg : gmap string (gmap string Windows.reg_data) := ∅ in
  snd (Windows.ConfigureWER ac reg) = true
  /\ (fst (Windows.ConfigureWER ac reg) !! Windows.WER_KEY) ≫= (fun vals => vals !! "DumpFolder")
     = Some (Windows.REG_SZ Windows.CRASH_SUBDIR)
  /\ (fst (Windows.ConfigureWER ac reg) !! Windows.WER_KEY) ≫= (fun vals => vals !! "DumpType")
     = (reg !! Windows.WER_KEY) ≫= (fun vals => vals !! "DumpType").
Proof.
  cbv zeta.
  apply (proj2 (proj2 (ConfigureWER_result
                         (Windows.mkAccess true (fun n => bool_decide (n = "DumpFolder"))) ∅)));
    reflexivity.
Defined.

(** X11. [ConfigureCorePattern] returns true exactly when the pattern file
    could be opened and [setrlimit] accepted the unlimited core size.
    When the file cannot be opened nothing is changed; when it can, the
    pattern is written even if the function then returns false; and a
    false return leaves the two limits as they were. *)
Theorem ConfigureCorePattern_result pr sys :
  Linux.rlim_max sys <= Linux.RLIM_INFINITY ->
  snd (Linux.ConfigureCorePattern pr sys)
  = Linux.may_write_core_pattern pr
    && (Linux.cap_sys_resource pr || (Linux.rlim_max sys =? Linux.RLIM_INFINITY))
  /\ (Linux.may_write_core_pattern pr = false -> fst (Linux.ConfigureCorePattern pr sys) = sys)
  /\ (Linux.may_write_core_pattern pr = true ->
      Linux.core_pattern (fst (Linux.ConfigureCorePattern pr sys))
      = Linux.CORE_PATTERN_VALUE +:+ newline)
  /\ (snd (Linux.ConfigureCorePattern pr sys) = false ->
      Linux.rlim_cur (fst (Linux.ConfigureCorePattern pr sys)) = Linux.rlim_cur sys
      /\ Linux.rlim_max (fst (Linux.ConfigureCorePattern pr sys)) = Linux.rlim_max sys)
  /\ (snd (Linux.ConfigureCorePattern pr sys) = true ->
      Linux.rlim_cur (fst (Linux.ConfigureCorePattern pr sys)) = Linux.RLIM_INFINITY
      /\ Linux.rlim_max (fst (Linux.ConfigureCorePattern pr sys)) = Linux.RLIM_INFINITY).
Proof.
  intros Hmax. unfold Linux.ConfigureCorePattern, Linux.setrlimit.
  rewrite Z.ltb_irrefl.
  destruct (Linux.may_write_core_pattern pr); cbn [negb andb fst snd];
    [|repeat split; intros; discriminate || reflexivity].
  cbn [Linux.rlim_max].
  replace (Linux.RLIM_INFINITY <=? Linux.rlim_max sys)
    with (Linux.rlim_max sys =? Linux.RLIM_INFINITY)
    by (destruct (Z.eqb_spec (Linux.rlim_max sys) Linux.RLIM_INFINITY),
                 (Z.leb_spec Linux.RLIM_INFINITY (Linux.rlim_max sys)); lia || reflexivity).
  destruct (Linux.cap_sys_resource pr || _); cbn;
    repeat split; intros; discriminate || reflexivity.
Qed.

Lemma ConfigureCorePattern_result_witness :
  let pr := Linux.mkPrivileges true false in
  let sys := Linux.mkSystem "core" 0 1024 in
  snd (Linux.ConfigureCorePattern pr sys) = false
  /\ Linux.core_pattern (fst (Linux.ConfigureCorePattern pr sys))
     = Linux.CORE_PATTERN_VALUE +:+ newline.
Proof.
  cbv zeta. split; [reflexivity|].
  apply (ConfigureCorePattern_result (Linux.mkPrivileges true false)
           (Linux.mkSystem "core" 0 1024)); [vm_compute; discriminate|reflexivity].
Defined.


(** ** The record file of a fault *)

Lemma opens_creates f :
  Windows.ofstream_opens f = true -> Windows.create_directories_ok f = true.
Proof.
  unfold Windows.create_directories_ok, Windows.ofstream_opens.
  now destruct (Windows.file_system f).
Qed.

Lemma CreateCrashJSON_opens f exe p code d :
  Windows.ofstream_opens f = true ->
  Windows.CreateCrashJSON f exe p code d
  = (Windows.mkDisk true
       (<[Windows.crash_path p (Windows.timestamp f) := Windows.crash_json exe p code]>
          (Windows.files d)),
     Some (Windows.crash_path p (Windows.timestamp f))).
Proof.
  intros H. unfold Windows.CreateCrashJSON.
  rewrite H, (opens_creates f H), andb_false_r. cbn [negb].
  destruct d as [exists_ fs]. now destruct exists_.
Qed.

Lemma filter_disk_opens f a :
  Windows.ofstream_opens f = true ->
  Windows.disk (fst (Windows.MyUnhandledExceptionFilter f a))
  = Windows.mkDisk true
      (<[Windows.crash_path (Windows.CurrentProcessId f) (Windows.timestamp f)
         := Windows.crash_json (default "unknown" (Windows.ModuleFileName f))
              (Windows.CurrentProcessId f) (Windows.ExceptionCode f)]>
         (Windows.files (Windows.disk a))).
Proof.
  intros H. unfold Windows.MyUnhandledExceptionFilter.
  rewrite (CreateCrashJSON_opens _ _ _ _ _ H).
  now destruct (Windows.g_originalFilter a).
Qed.

(** The filter gets to its end when the crash directory is there or can
    be made; the store is then that of the fault, and the directory is
    there afterwards. *)
Lemma filter_store f a :
  Windows.dir_exists (Windows.disk a) || Windows.create_directories_ok f = true ->
  Windows.store (fst (Windows.MyUnhandledExceptionFilter f a)) = Windows.fault_store f
  /\ Windows.dir_exists (Windows.disk (fst (Windows.MyUnhandledExceptionFilter f a))) = true.
Proof.
  intros Hdir. destruct (Windows.ofstream_opens f) eqn:H.
  - rewrite windows_filter_store, (filter_disk_opens f a H).
    rewrite (CreateCrashJSON_opens _ _ _ _ _ H).
    unfold Windows.fault_store. rewrite H. split; reflexivity.
  - apply orb_prop in Hdir.
    assert (Hdir' : Windows.dir_exists (Windows.disk a) = true
                    \/ Windows.create_directories_ok f = true) by exact Hdir.
    rewrite windows_filter_store.
    rewrite (proj1 (CreateCrashJSON_fails f _ _ _ (Windows.disk a) H Hdir')).
    unfold Windows.fault_store. rewrite H. split; [reflexivity|].
    unfold Windows.MyUnhandledExceptionFilter, Windows.CreateCrashJSON. rewrite H.
    destruct (Windows.disk a) as [exists_ fs]. cbn [Windows.dir_exists Windows.files] in *.
    destruct exists_, (Windows.create_directories_ok f), Hdir'; try discriminate;
      cbn; now destruct (Windows.g_originalFilter a).
Qed.

(** Otherwise the exception leaves it and nothing has changed. *)
Lemma filter_throws f a :
  Windows.dir_exists (Windows.disk a) || Windows.create_directories_ok f = false ->
  fst (Windows.MyUnhandledExceptionFilter f a) = a.
Proof.
  intros Hdir. apply orb_false_elim in Hdir as [Hd Hc].
  unfold Windows.MyUnhandledExceptionFilter.
  rewrite (CreateCrashJSON_throws f _ _ _ _ Hd Hc). now destruct a.
Qed.

(** X12. When the record file can be created, the path the filter puts in
    the store is that of a file which exists afterwards and whose content
    is the JSON text written from the very executable path, pid and code
    the store holds; the crash directory exists; every other file is as
    it was. *)
Theorem filter_file_matches_store (f : Windows.Fault) (a : Windows.Agent) :
  let a' := fst (Windows.MyUnhandledExceptionFilter f a) in
  let rec := Windows.g_lastCrash (Windows.store a') in
  Windows.ofstream_opens f = true ->
  Windows.crashFile rec
  = Windows.crash_path (Windows.CurrentProcessId f) (Windows.timestamp f)
  /\ Windows.files (Windows.disk a') !! Windows.crashFile rec
     = Some (Windows.crash_json (Windows.exePath rec) (Windows.pid rec)
               (Windows.exceptionCode rec))
  /\ Windows.dir_exists (Windows.disk a') = true
  /\ (forall other, other <> Windows.crashFile rec ->
        Windows.files (Windows.disk a') !! other = Windows.files (Windows.disk a) !! other).
Proof.
  intros a' rec Hopen. subst rec a'.
  rewrite (proj1 (filter_store f a ltac:(now rewrite (opens_creates f Hopen), orb_true_r))).
  rewrite (filter_disk_opens f a Hopen).
  unfold Windows.fault_store. rewrite Hopen. cbn.
  split; [reflexivity|]. split; [apply lookup_insert_eq|]. split; [reflexivity|].
  intros other Hne. now apply lookup_insert_ne.
Qed.

Lemma filter_file_matches_store_witness :
  let f := Windows.mkFault 0xC0000005 1234 (Some "C:\agent.exe") "20230601_120000"
             Windows.FileOpens in
  let a := Windows.agent_init (Windows.mkDisk false ∅) None in
  let a' := fst (Windows.MyUnhandledExceptionFilter f a) in
  Windows.files (Windows.disk a')
    !! Windows.crashFile (Windows.g_lastCrash (Windows.store a'))
  = Some (Windows.crash_json "C:\agent.exe" 1234 0xC0000005).
Proof.
  cbv zeta.
  apply (filter_file_matches_store
           (Windows.mkFault 0xC0000005 1234 (Some "C:\agent.exe") "20230601_120000"
              Windows.FileOpens)
           (Windows.agent_init (Windows.mkDisk false ∅) None)).
  reflexivity.
Defined.

(** ** Two faults, two files *)

Lemma append_cancel_r (t : string) : forall a b, a +:+ t = b +:+ t -> a = b.
Proof.
  assert (Hlen : forall a, String.length (a +:+ t) = String.length t -> a = EmptyString).
  { intros [|c a] H; [reflexivity|].
    rewrite append_length in H. cbn [String.length] in H. lia. }
  induction a as [|c a IH]; intros b H.
  - symmetry. apply Hlen. now rewrite <- H.
  - destruct b as [|c' b].
    + apply Hlen. now rewrite H.
    + rewrite !append_cons in H. injection H as -> H. f_equal. now apply IH.
Qed.

Lemma split_after_digits a : forall b x y,
  all_chars is_dec_digit a = true -> all_chars is_dec_digit b = true ->
  a +:+ "_" +:+ x = b +:+ "_" +:+ y -> a = b /\ x = y.
Proof.
  induction a as [|c a IH]; intros b x y Ha Hb H.
  - destruct b as [|c' b].
    + injection H as H. now split.
    + rewrite append_cons in H. injection H as <- _.
      cbn [all_chars] in Hb. discriminate Hb.
  - destruct b as [|c' b].
    + rewrite append_cons in H. injection H as -> _.
      cbn [all_chars] in Ha. discriminate Ha.
    + rewrite !append_cons in H. injection H as -> H.
      cbn [all_chars] in Ha, Hb.
      apply andb_prop in Ha as [_ Ha]. apply andb_prop in Hb as [_ Hb].
      destruct (IH b x y Ha Hb H) as [-> ->]. now split.
Qed.

Lemma crash_path_inj p1 s1 p2 s2 :
  0 <= p1 -> 0 <= p2 ->
  Windows.crash_path p1 s1 = Windows.crash_path p2 s2 -> p1 = p2 /\ s1 = s2.
Proof.
  intros H1 H2 H. unfold Windows.crash_path in H.
  do 3 apply append_cancel_l in H.
  apply split_after_digits in H as [Hp Hs]; try now apply to_string_digits.
  split; [now apply to_string_inj|]. exact (append_cancel_r _ _ _ Hs).
Qed.

(** X13. The name of the record file tells the pid and the second apart:
    two faults that differ in one of them are written to two files, and
    the record of the first is still there, unchanged, after the second.
    Two faults of one process in one second share the file, which then
    holds the record of the second. *)
Theorem second_fault_file (f1 f2 : Windows.Fault) (a : Windows.Agent) :
  let a2 := Windows.run [Windows.Crash f1; Windows.Crash f2] a in
  let json f := Windows.crash_json (default "unknown" (Windows.ModuleFileName f))
                  (Windows.CurrentProcessId f) (Windows.ExceptionCode f) in
  let path f := Windows.crash_path (Windows.CurrentProcessId f) (Windows.timestamp f) in
  Windows.ofstream_opens f1 = true -> Windows.ofstream_opens f2 = true ->
  0 <= Windows.CurrentProcessId f1 -> 0 <= Windows.CurrentProcessId f2 ->
  Windows.files (Windows.disk a2) !! path f2 = Some (json f2)
  /\ ((Windows.CurrentProcessId f1 <> Windows.CurrentProcessId f2
       \/ Windows.timestamp f1 <> Windows.timestamp f2) ->
      path f1 <> path f2 /\ Windows.files (Windows.disk a2) !! path f1 = Some (json f1))
  /\ (Windows.CurrentProcessId f1 = Windows.CurrentProcessId f2 ->
      Windows.timestamp f1 = Windows.timestamp f2 ->
      path f1 = path f2).
Proof.
  intros a2 json path Ho1 Ho2 Hp1 Hp2. subst a2.
  cbn [Windows.run fold_left Windows.step].
  rewrite (filter_disk_opens f2 _ Ho2), (filter_disk_opens f1 a Ho1).
  cbn [Windows.files]. fold (json f1) (json f2) (path f1) (path f2).
  split; [apply lookup_insert_eq|]. split.
  - intros Hdiff.
    assert (Hne : path f1 <> path f2).
    { intros Heq. subst path. cbv beta in Heq.
      destruct (crash_path_inj _ _ _ _ Hp1 Hp2 Heq) as [Hp Hs].
      destruct Hdiff; contradiction. }
    split; [exact Hne|].
    rewrite lookup_insert_ne by congruence. apply lookup_insert_eq.
  - intros Hp Hs. subst path. cbn. now rewrite Hp, Hs.
Qed.

Lemma second_fault_file_witness :
  let f1 := Windows.mkFault 0xC0000005 1234 None "20230601_120000" Windows.FileOpens in
  let f2 := Windows.mkFault 0xC0000094 1234 None "20230601_120001" Windows.FileOpens in
  let a2 := Windows.run [Windows.Crash f1; Windows.Crash f2]
              (Windows.agent_init (Windows.mkDisk false ∅) None) in
  Windows.crash_path 1234 "20230601_120000" <> Windows.crash_path 1234 "20230601_120001"
  /\ Windows.files (Windows.disk a2) !! Windows.crash_path 1234 "20230601_120000"
     = Some (Windows.crash_json "unknown" 1234 0xC0000005).
Proof.
  intros f1 f2 a2.
  assert (H1 : 0 <= Windows.CurrentProcessId f1) by (cbn; lia).
  assert (H2 : 0 <= Windows.CurrentProcessId f2) by (cbn; lia).
  refine (proj1 (proj2 (second_fault_file f1 f2 _ eq_refl eq_refl H1 H2)) _).
  right. discriminate.
Defined.

(** ** The last fault wins *)

Lemma windows_run_app a b x :
  Windows.run (a ++ b) x = Windows.run b (Windows.run a x).
Proof. apply fold_left_app. Qed.

Lemma windows_run_queries queries : forall x,
  Forall (fun ev => ev = Windows.Query) queries -> Windows.run queries x = x.
Proof.
  induction queries as [|q queries IH]; intros x H; [reflexivity|].
  inversion H as [|? ? -> Hrest]; subst. cbn. now apply IH.
Qed.

Lemma run_last_installed evs : forall a s0 acc,
  Windows.store a = from_option Windows.fault_store s0 acc ->
  Windows.store (Windows.run evs a)
  = from_option Windows.fault_store s0
      (Windows.last_installed (Windows.dir_exists (Windows.disk a)) evs acc).
Proof.
  induction evs as [|ev evs IH]; intros a s0 acc Ha; [exact Ha|].
  destruct ev as [f|]; cbn [Windows.run fold_left Windows.step Windows.last_installed].
  - destruct (Windows.dir_exists (Windows.disk a) || Windows.create_directories_ok f) eqn:Hdir.
    + destruct (filter_store f a Hdir) as [Hs Hd].
      change (fold_left Windows.step evs ?x) with (Windows.run evs x).
      rewrite (IH _ s0 (Some f) Hs). now rewrite Hd.
    + rewrite (filter_throws f a Hdir). now apply (IH a s0 acc).
  - now apply (IH a s0 acc).
Qed.

(** X14. After any sequence of faults and queries the store holds the
    record of the last fault whose filter got to its end, and of that one
    alone, whatever the earlier ones were and whatever the store held: its
    executable path, pid and code, and the path of its record file, or the
    empty string when the file did not open. A fault that finds the crash
    directory missing and cannot make it throws out of the filter and
    leaves everything as it was; with no fault that got through, the store
    is as it was. *)
Theorem last_fault_wins (evs : list Windows.event) (a : Windows.Agent) :
  Windows.store (Windows.run evs a)
  = match Windows.last_installed (Windows.dir_exists (Windows.disk a)) evs None with
    | Some f => Windows.fault_store f
    | None => Windows.store a
    end
  /\ (forall f queries,
        Forall (fun ev => ev = Windows.Query) queries ->
        Windows.dir_exists (Windows.disk (Windows.run evs a))
        || Windows.create_directories_ok f = true ->
        Windows.store (Windows.run (evs ++ Windows.Crash f :: queries) a)
        = Windows.fault_store f)
  /\ (forall f,
        Windows.dir_exists (Windows.disk (Windows.run evs a))
        || Windows.create_directories_ok f = false ->
        Windows.run (evs ++ [Windows.Crash f]) a = Windows.run evs a).
Proof.
  split; [|split].
  - rewrite (run_last_installed evs a (Windows.store a) None eq_refl).
    now destruct (Windows.last_installed _ evs None).
  - intros f queries Hq Hdir.
    rewrite windows_run_app. cbn [Windows.run fold_left Windows.step].
    change (fold_left Windows.step queries ?x) with (Windows.run queries x).
    rewrite (windows_run_queries queries _ Hq).
    exact (proj1 (filter_store f _ Hdir)).
  - intros f Hdir. rewrite windows_run_app. cbn [Windows.run fold_left Windows.step].
    exact (filter_throws f _ Hdir).
Qed.

Lemma last_fault_wins_witness :
  let f1 := Windows.mkFault 0xC0000005 1234 None "20230601_120000" Windows.FileOpens in
  let f2 := Windows.mkFault 0xC0000094 1234 (Some "C:\agent.exe") "20230601_120001"
              Windows.CannotOpenFile in
  let f3 := Windows.mkFault 0xC0000096 77 None "20230601_120002"
              Windows.CannotCreateDirectory in
  let a := Windows.agent_init (Windows.mkDisk false ∅) None in
  Windows.store (Windows.run ([Windows.Crash f3; Windows.Crash f1; Windows.Query]
                                ++ Windows.Crash f2 :: [Windows.Query]) a)
  = Windows.mkStore true (Windows.mkCrashInfo true "C:\agent.exe" 1234 0xC0000094 EmptyString)
  /\ Windows.run ([] ++ [Windows.Crash f3]) a = Windows.run [] a.
Proof.
  intros f1 f2 f3 a. split.
  - refine (proj1 (proj2 (last_fault_wins [Windows.Crash f3; Windows.Crash f1; Windows.Query] a))
              f2 [Windows.Query] _ _).
    + repeat constructor.
    + reflexivity.
  - refine (proj2 (proj2 (last_fault_wins [] a)) f3 _). reflexivity.
Defined.

(** ** The numbers in the Windows response *)

Lemma to_hex_chars n : 0 <= n -> all_chars is_hex_lower (to_hex n) = true.
Proof.
  intros H. unfold to_hex, render_unsigned.
  apply render_digits_chars; try lia; [|reflexivity].
  intros d Hd. now apply digit_char_hex.
Qed.

Lemma render_unsigned_head base n :
  2 <= base <= 16 -> 0 < n -> no_leading_zero (render_unsigned base n) = true.
Proof.
  intros Hb Hn. unfold render_unsigned. apply render_digits_head; [exact Hb|].
  split; [exact Hn|]. apply render_fuel_enough; lia.
Qed.

(** X15. In the response of the Windows agent to a store that holds a
    crash, the pid is written in decimal and the exception code, after
    [0x], in hexadecimal: the first with the characters 0-9 only, the
    second with 0-9 and a-f only, neither with a leading zero unless the
    number is zero, and read back in their base the digits give the pid
    and the code. *)
Theorem windows_response_numbers (s : Windows.Store) :
  let rec := Windows.g_lastCrash s in
  Windows.g_crashHappened s = true -> Windows.haveCrash rec = true ->
  0 <= Windows.pid rec -> 0 <= Windows.exceptionCode rec ->
  Windows.response s
  = "{ " +:+ dquote +:+ "crash" +:+ dquote +:+ ": true, "
      +:+ dquote +:+ "pid" +:+ dquote +:+ ": " +:+ to_string (Windows.pid rec) +:+ ", "
      +:+ dquote +:+ "exe" +:+ dquote +:+ ": " +:+ dquote +:+ Windows.exePath rec +:+ dquote
      +:+ ", " +:+ dquote +:+ "exception" +:+ dquote +:+ ": " +:+ dquote +:+ "0x"
      +:+ to_hex (Windows.exceptionCode rec) +:+ dquote +:+ ", "
      +:+ dquote +:+ "file" +:+ dquote +:+ ": " +:+ dquote +:+ Windows.crashFile rec
      +:+ dquote +:+ " }" +:+ newline
  /\ (all_chars is_dec_digit (to_string (Windows.pid rec)) = true
      /\ value_from 10 (to_string (Windows.pid rec)) 0 = Windows.pid rec
      /\ (0 < Windows.pid rec -> no_leading_zero (to_string (Windows.pid rec)) = true))
  /\ (all_chars is_hex_lower (to_hex (Windows.exceptionCode rec)) = true
      /\ value_from 16 (to_hex (Windows.exceptionCode rec)) 0 = Windows.exceptionCode rec
      /\ (0 < Windows.exceptionCode rec ->
          no_leading_zero (to_hex (Windows.exceptionCode rec)) = true))
  /\ to_string 0 = "0" /\ to_hex 0 = "0".
Proof.
  intros rec Hf Hh Hp Hc. subst rec. split.
  - unfold Windows.response. rewrite Hf, Hh. reflexivity.
  - split; [|split; [|split; reflexivity]].
    + split; [now apply to_string_digits|]. split; [now apply to_string_value|].
      intros H. apply render_unsigned_head; lia.
    + split; [now apply to_hex_chars|]. split; [now apply to_hex_value|].
      intros H. apply render_unsigned_head; lia.
Qed.

Lemma windows_response_numbers_witness :
  value_from 16 (to_hex 0xC0000005) 0 = 0xC0000005.
Proof.
  apply (windows_response_numbers
           (Windows.mkStore true
              (Windows.mkCrashInfo true "C:\agent.exe" 1234 0xC0000005 EmptyString)));
    (reflexivity || (cbn; lia)).
Defined.

(** ** The lock and the store *)


(** X16. Whatever the schedule, the filter and the server are never both
    between taking and releasing the lock, and the lock belongs to the
    one that is; the store depends only on how far the filter has got,
    the server never changes it: it is the old store until the filter
    has the lock, and the complete new record once the filter has made
    its last assignment. *)
Theorem lock_protects_store (s0 : Windows.Store) (exe : string) (p code : Z) (file : string)
    (sched : list thread) :
  let σ := run exe p code file sched (start s0) in
  d_holds (d_at σ) && r_holds (r_at σ) = false
  /\ owner σ = owner_at (d_at σ) (r_at σ)
  /\ shared σ = mem_at s0 exe p code file (d_at σ)
  /\ (d_at σ = D_lock -> shared σ = s0)
  /\ (d_at σ = D_unlock \/ d_at σ = D_done ->
      shared σ = Windows.mkStore true (Windows.mkCrashInfo true exe p code file)).
Proof.
  intros σ.
  destruct (inv_run s0 exe p code file sched (start s0) (inv_start s0 exe p code file))
    as (Hmem & Hown & Hexcl & _).
  fold σ in Hmem, Hown, Hexcl.
  repeat split; try assumption.
  - intros Hd. now rewrite Hmem, Hd.
  - intros [Hd|Hd]; now rewrite Hmem, Hd.
Qed.

Lemma lock_protects_store_witness :
  let σ := run "C:\agent.exe" 1234 0xC0000005 EmptyString
             (repeat Detector 3 ++ repeat Responder 4 ++ repeat Detector 5)
             (start Windows.store_init) in
  d_at σ = D_done
  /\ shared σ
     = Windows.mkStore true (Windows.mkCrashInfo true "C:\agent.exe" 1234 0xC0000005 EmptyString).
Proof.
  cbv zeta. split; [reflexivity|].
  apply (lock_protects_store Windows.store_init "C:\agent.exe" 1234 0xC0000005 EmptyString
           (repeat Detector 3 ++ repeat Responder 4 ++ repeat Detector 5)).
  right. reflexivity.
Defined.

(** ** A get after the set *)

Lemma after_inv_step exe p code file σ t :
  after_inv exe p code file σ -> after_inv exe p code file (step exe p code file σ t).
Proof.
  destruct σ as [sh ow d r c snap]. unfold after_inv, observed, get. cbn.
  intros (-> & -> & -> & Hrd).
  destruct t, r; cbn in *; intuition (subst; cbn; try congruence; auto).
Qed.

Lemma after_inv_run exe p code file sched : forall σ,
  after_inv exe p code file σ -> after_inv exe p code file (run exe p code file sched σ).
Proof.
  induction sched as [|t sched IH]; intros σ H; [exact H|].
  cbn [run fold_left]. apply IH. now apply after_inv_step.
Qed.

(** X17. A get that begins once the set is complete sees that set: if the
    server has not yet loaded the flag when the filter is done, then,
    however the threads are scheduled from there, what the server has
    when it is done is the new record, and its answer the response to the
    new store. *)
Theorem get_after_set_sees_it (s0 : Windows.Store) (exe : string) (p code : Z) (file : string)
    (before after : list thread) :
  let σ1 := run exe p code file before (start s0) in
  let σ2 := run exe p code file after σ1 in
  d_at σ1 = D_done -> r_at σ1 = R_load -> r_at σ2 = R_done ->
  observed σ2 = Some (Windows.mkCrashInfo true exe p code file)
  /\ answer σ2 = Windows.response (Windows.install exe p code file s0).
Proof.
  intros σ1 σ2 Hd Hr Hdone.
  destruct (inv_run s0 exe p code file before (start s0) (inv_start s0 exe p code file))
    as (Hmem & Hown & _ & Hrd).
  fold σ1 in Hmem, Hown, Hrd.
  assert (H1 : after_inv exe p code file σ1).
  { unfold after_inv. unfold reader_inv in Hrd. rewrite Hr in *. rewrite Hd in *.
    repeat split; assumption. }
  pose proof (after_inv_run exe p code file after σ1 H1) as (_ & _ & _ & H2).
  fold σ2 in H2. rewrite Hdone in H2.
  split; [exact H2|].
  unfold answer. apply response_of_get. exact H2.
Qed.

Lemma get_after_set_sees_it_witness :
  let σ2 := run "C:\agent.exe" 1234 0xC0000005 EmptyString
              (repeat Responder 3 ++ [Detector] ++ repeat Responder 5)
              (run "C:\agent.exe" 1234 0xC0000005 EmptyString (repeat Detector 8)
                 (start Windows.store_init)) in
  observed σ2 = Some (Windows.mkCrashInfo true "C:\agent.exe" 1234 0xC0000005 EmptyString).
Proof.
  cbv zeta.
  apply (get_after_set_sees_it Windows.store_init "C:\agent.exe" 1234 0xC0000005 EmptyString
           (repeat Detector 8) (repeat Responder 3 ++ [Detector] ++ repeat Responder 5));
    reflexivity.
Defined.


(** ** The accept loops *)

Lemma linux_serve_clients hex dec conns :
  Linux.serve hex dec conns
  = map (fun c => Linux.http hex dec (snd c))
      (List.filter (fun c => match fst c with
                             | Linux.Client _ => true
                             | Linux.AcceptError => false
                             end) conns).
Proof.
  induction conns as [|[[|received] s] conns IH]; cbn; [reflexivity|exact IH|].
  now rewrite IH.
Qed.

(** X18. The Linux server sends nothing when [socket], [bind] or [listen]
    fails. Otherwise it answers every client that [accept] returns, in
    order, with the HTTP text of the store as it is at that moment,
    whatever the client sent, and a failed [accept] does not stop it: the
    clients accepted after it are answered too. *)
Theorem linux_server_answers_every_client (hex dec : string) (up : Linux.Startup)
    (conns : list (Linux.accepted * Linux.Store)) :
  (Linux.socket_ok up && Linux.bind_ok up && Linux.listen_ok up = false ->
   Linux.StartTCPServer hex dec up conns = [])
  /\ (Linux.socket_ok up && Linux.bind_ok up && Linux.listen_ok up = true ->
      Linux.StartTCPServer hex dec up conns
      = map (fun c => Linux.http hex dec (snd c))
          (List.filter (fun c => match fst c with
                                 | Linux.Client _ => true
                                 | Linux.AcceptError => false
                                 end) conns)).
Proof.
  unfold Linux.StartTCPServer.
  destruct (Linux.socket_ok up), (Linux.bind_ok up), (Linux.listen_ok up); cbn;
    split; intros H; try discriminate H; try reflexivity.
  apply linux_serve_clients.
Qed.

Lemma linux_server_answers_every_client_witness :
  let s := Linux.store (Linux.watch_cycle (Some [Linux.mkDirent "core.7" true 5])
                          Linux.watcher_init) in
  Linux.StartTCPServer EmptyString EmptyString (Linux.mkStartup true true true)
    [(Linux.Client None, Linux.store_init); (Linux.AcceptError, Linux.store_init);
     (Linux.Client (Some "GET / HTTP/1.1"), s)]
  = [Linux.http EmptyString EmptyString Linux.store_init;
     Linux.http EmptyString EmptyString s].
Proof.
  intros s.
  refine (eq_trans
            (proj2 (linux_server_answers_every_client EmptyString EmptyString
                      (Linux.mkStartup true true true) _) eq_refl) _).
  reflexivity.
Defined.

Lemma windows_serve_clients served : forall rest,
  Forall (fun c => exists received, fst c = Windows.Client received) served ->
  Windows.serve (served ++ rest)
  = map (fun c => Windows.http (snd c)) served ++ Windows.serve rest.
Proof.
  induction served as [|[a s] served IH]; intros rest H; [reflexivity|].
  inversion H as [|? ? [received Ha] Hrest]; subst. cbn in Ha. subst a.
  cbn. now rewrite IH.
Qed.

(** X19. The Windows server sends nothing when [WSAStartup], [socket],
    [bind] or [listen] fails. Otherwise it answers the clients in order,
    each with the HTTP text of the store at that moment, until [accept]
    fails for the first time: that ends the loop, and no client that
    connects later is answered. *)
Theorem windows_server_stops_at_failed_accept (up : Windows.Startup)
    (served rest : list (Windows.accepted * Windows.Store)) (s : Windows.Store) :
  (Windows.winsock_ok up && Windows.socket_ok up && Windows.bind_ok up
   && Windows.listen_ok up = false ->
   Windows.StartTCPServer up (served ++ rest) = [])
  /\ (Windows.winsock_ok up && Windows.socket_ok up && Windows.bind_ok up
      && Windows.listen_ok up = true ->
      Forall (fun c => exists received, fst c = Windows.Client received) served ->
      Windows.StartTCPServer up served = map (fun c => Windows.http (snd c)) served
      /\ Windows.StartTCPServer up (served ++ (Windows.AcceptError, s) :: rest)
         = map (fun c => Windows.http (snd c)) served).
Proof.
  unfold Windows.StartTCPServer.
  destruct (Windows.winsock_ok up), (Windows.socket_ok up), (Windows.bind_ok up),
    (Windows.listen_ok up); cbn [negb andb];
    split; intros H; try discriminate H; try reflexivity.
  intros Hserved. split.
  - rewrite <- (app_nil_r served) at 1.
    rewrite (windows_serve_clients served [] Hserved). cbn. apply app_nil_r.
  - rewrite (windows_serve_clients served _ Hserved). cbn. apply app_nil_r.
Qed.

Lemma windows_server_stops_at_failed_accept_witness :
  let s1 := Windows.fault_store
              (Windows.mkFault 0xC0000005 1234 None "20230601_120000" Windows.CannotOpenFile) in
  Windows.StartTCPServer (Windows.mkStartup true true true true)
    ([(Windows.Client None, Windows.store_init)]
       ++ (Windows.AcceptError, Windows.store_init) :: [(Windows.Client None, s1)])
  = [Windows.http Windows.store_init].
Proof.
  intros s1.
  refine (eq_trans
            (proj2 (proj2 (windows_server_stops_at_failed_accept
                             (Windows.mkStartup true true true true)
                             [(Windows.Client None, Windows.store_init)] _ Windows.store_init)
                      eq_refl _)) _).
  - repeat constructor. now exists None.
  - reflexivity.
Defined.
